(** * crataegus: the EPSG:9705 -> EPSG:4979 wrapper around PROJ

    A shallow embedding of [src/c/proj_wrapper.c].  The file has one C
    function, [epsg4979_from_epsg9705], which drives the PROJ library
    (context, transformation, forward transformation, error indicator,
    release) and converts between degrees and radians around the call.

    - C [double] is Rocq's primitive binary64 [float]; [M_PI] is the
      binary64 constant of <math.h>.
    - Caller memory is a heap of doubles indexed by byte address; a
      pointer is an address, [0] is [NULL], and the three fields of a
      struct sit at offsets 0, 8 and 16.
    - PROJ is an external collaborator: its operations are the fields of
      an [Engine] record, over a private engine state.  Every call into
      the engine and every load or store of caller memory is logged in a
      trace, so that the order of the calls can be stated.

    Layout: the data model and the function; the vocabulary of the
    statements (views of memory, resource protocol, sample engines, return
    paths, real value of a double); the lemmas that tie the function to
    its return paths; the rounding analysis of the two unit conversions
    from the IEEE 754 specification in [SpecFloat]; the claims. *)

From Stdlib Require Import ZArith List String Floats Reals Lra Lia.
From stdpp Require Import base option gmap.

Local Open Scope Z_scope.

(** ** Data model *)

(** [M_PI] of <math.h>: 3.14159265358979323846 as a binary64 value. *)
Definition M_PI : float := 0x1.921fb54442d18p+1%float.

(** LLA coordinates in EPSG:9705 (WGS84 lat/lon + MSL):
    [struct { double lat; double lon; double alt; }]. *)
Record EPSG9705 := mkEPSG9705 {
  lat9705 : float;  (* latitude in degrees *)
  lon9705 : float;  (* longitude in degrees *)
  alt9705 : float   (* altitude above MSL in meters *)
}.

(** LLA coordinates in EPSG:4979 (WGS84 3D), same layout. *)
Record EPSG4979 := mkEPSG4979 {
  lat4979 : float;
  lon4979 : float;
  alt4979 : float
}.

(** Byte offsets of the fields [lat], [lon], [alt] in both structs. *)
Definition off_lat : Z := 0.
Definition off_lon : Z := 8.
Definition off_alt : Z := 16.

(** Modelled from the spec: the declarations of <proj.h> are not in the
    repository.  [PJ_COORD] is PROJ's union of four doubles; its [lpzt]
    view names them [lam], [phi], [z], [t] in that order, and
    [proj_coord x y z t] fills the four slots in the order given. *)
Record PJ_LPZT := mkLPZT { lam : float; phi : float; z : float; t : float }.
Record PJ_COORD := mkCOORD { lpzt : PJ_LPZT }.

Definition proj_coord (x y z t : float) : PJ_COORD :=
  {| lpzt := {| lam := x; phi := y; z := z; t := t |} |}.

Inductive PJ_DIRECTION := PJ_FWD | PJ_IDENT | PJ_INV.

(** The transformation engine.  Handles ([PJ_CONTEXT *], [PJ *]) are
    addresses, [0] being [NULL].  The engine keeps its own state and has
    no pointer into the caller's structs. *)
Record Engine := mkEngine {
  engine_state : Type;
  proj_context_create : engine_state -> Z * engine_state;
  proj_create_crs_to_crs :
    Z -> string -> string -> Z -> engine_state -> Z * engine_state;
  proj_trans :
    Z -> PJ_DIRECTION -> PJ_COORD -> engine_state -> PJ_COORD * engine_state;
  proj_errno : Z -> engine_state -> Z;
  proj_destroy : Z -> engine_state -> engine_state;
  proj_context_destroy : Z -> engine_state -> engine_state
}.

(** What the function does to the outside, in program order. *)
Inductive event :=
| Call_context_create (ret : Z)
| Call_create_crs_to_crs (ctx : Z) (src dst : string) (area : Z) (ret : Z)
| Call_trans (P : Z) (dir : PJ_DIRECTION) (c_in c_out : PJ_COORD)
| Call_errno (P : Z) (ret : Z)
| Call_destroy (P : Z)
| Call_context_destroy (ctx : Z)
| Load (addr : Z) (v : float)
| Store (addr : Z) (v : float).

Record World (E : Engine) := mkWorld {
  heap : gmap Z float;
  eng : engine_state E;
  trace : list event
}.
Arguments mkWorld {E} _ _ _.
Arguments heap {E} _.
Arguments eng {E} _.
Arguments trace {E} _.

(** ** A state-and-fault monad for the C function

    [None] is undefined behaviour (an access outside mapped memory). *)
Definition M (E : Engine) (A : Type) : Type := World E -> option (A * World E).

Definition ret {E A} (a : A) : M E A := fun w => Some (a, w).

Definition bind {E A B} (m : M E A) (k : A -> M E B) : M E B :=
  fun w => match m w with
           | Some (a, w') => k a w'
           | None => None
           end.

Notation "x <- m ;; k" := (bind m (fun x => k))
  (at level 100, m at next level, right associativity).
Notation "m ;;; k" := (bind m (fun _ => k))
  (at level 100, right associativity).

Definition log {E} (e : event) (w : World E) : World E :=
  mkWorld (heap w) (eng w) (trace w ++ [e]).

Definition load {E} (a : Z) : M E float :=
  fun w => match heap w !! a with
           | Some v => Some (v, log (Load a v) w)
           | None => None
           end.

Definition store {E} (a : Z) (v : float) : M E unit :=
  fun w => match heap w !! a with
           | Some _ =>
               Some (tt, mkWorld (<[a := v]> (heap w)) (eng w)
                                 (trace w ++ [Store a v]))
           | None => None
           end.

Definition call_context_create {E} : M E Z :=
  fun w => let '(c, s) := proj_context_create E (eng w) in
           Some (c, mkWorld (heap w) s (trace w ++ [Call_context_create c])).

Definition call_create_crs_to_crs {E} (ctx : Z) (src dst : string) (area : Z)
  : M E Z :=
  fun w => let '(p, s) := proj_create_crs_to_crs E ctx src dst area (eng w) in
           Some (p, mkWorld (heap w) s
                      (trace w ++ [Call_create_crs_to_crs ctx src dst area p])).

Definition call_trans {E} (P : Z) (dir : PJ_DIRECTION) (c : PJ_COORD)
  : M E PJ_COORD :=
  fun w => let '(c', s) := proj_trans E P dir c (eng w) in
           Some (c', mkWorld (heap w) s (trace w ++ [Call_trans P dir c c'])).

Definition call_errno {E} (P : Z) : M E Z :=
  fun w => let r := proj_errno E P (eng w) in
           Some (r, log (Call_errno P r) w).

Definition call_destroy {E} (P : Z) : M E unit :=
  fun w => Some (tt, mkWorld (heap w) (proj_destroy E P (eng w))
                             (trace w ++ [Call_destroy P])).

Definition call_context_destroy {E} (ctx : Z) : M E unit :=
  fun w => Some (tt, mkWorld (heap w) (proj_context_destroy E ctx (eng w))
                             (trace w ++ [Call_context_destroy ctx])).

(** ** The function *)

(** [int epsg4979_from_epsg9705(const EPSG9705 *input, EPSG4979 *output)] *)
Definition epsg4979_from_epsg9705 {E} (input output : Z) : M E Z :=
  if (input =? 0) || (output =? 0) then ret (-1) else
  ctx <- call_context_create ;;
  if ctx =? 0 then ret (-2) else
  P <- call_create_crs_to_crs ctx "EPSG:9705" "EPSG:4979" 0 ;;
  if P =? 0 then
    (call_context_destroy ctx ;;; ret (-3))
  else
  in_lat <- load (input + off_lat) ;;
  let lat_rad := (in_lat * M_PI / 180)%float in
  in_lon <- load (input + off_lon) ;;
  let lon_rad := (in_lon * M_PI / 180)%float in
  in_alt <- load (input + off_alt) ;;
  let c_in := proj_coord lon_rad lat_rad in_alt 0%float in
  c_out <- call_trans P PJ_FWD c_in ;;
  e <- call_errno P ;;
  if negb (e =? 0) then
    (call_destroy P ;;; call_context_destroy ctx ;;; ret (-4))
  else
  store (output + off_lat) (phi (lpzt c_out) * 180 / M_PI)%float ;;;
  store (output + off_lon) (lam (lpzt c_out) * 180 / M_PI)%float ;;;
  store (output + off_alt) (z (lpzt c_out)) ;;;
  call_destroy P ;;;
  call_context_destroy ctx ;;;
  ret 0.

(** ** Views of caller memory *)

(** The three doubles of a struct at address [p] are mapped. *)
Definition valid_ptr (h : gmap Z float) (p : Z) : Prop :=
  is_Some (h !! (p + off_lat)) /\ is_Some (h !! (p + off_lon)) /\
  is_Some (h !! (p + off_alt)).

Definition read_EPSG9705 (h : gmap Z float) (p : Z) : option EPSG9705 :=
  match h !! (p + off_lat), h !! (p + off_lon), h !! (p + off_alt) with
  | Some a, Some b, Some c => Some (mkEPSG9705 a b c)
  | _, _, _ => None
  end.

Definition read_EPSG4979 (h : gmap Z float) (p : Z) : option EPSG4979 :=
  match h !! (p + off_lat), h !! (p + off_lon), h !! (p + off_alt) with
  | Some a, Some b, Some c => Some (mkEPSG4979 a b c)
  | _, _, _ => None
  end.

Definition write_EPSG4979 (h : gmap Z float) (p : Z) (v : EPSG4979)
  : gmap Z float :=
  <[p + off_alt := alt4979 v]>
    (<[p + off_lon := lon4979 v]> (<[p + off_lat := lat4979 v]> h)).

(** Degrees to radians and back, as the C expressions group them:
    [x * M_PI / 180.0] is [(x * M_PI) / 180.0]. *)
Definition deg2rad (x : float) : float := (x * M_PI / 180)%float.
Definition rad2deg (x : float) : float := (x * 180 / M_PI)%float.

(** The coordinate handed to [proj_trans] for an input triple. *)
Definition c_in_of (i : EPSG9705) : PJ_COORD :=
  proj_coord (deg2rad (lon9705 i)) (deg2rad (lat9705 i)) (alt9705 i) 0%float.

(** The struct written from the coordinate [proj_trans] returned. *)
Definition output_of (c : PJ_COORD) : EPSG4979 :=
  mkEPSG4979 (rad2deg (phi (lpzt c))) (rad2deg (lam (lpzt c))) (z (lpzt c)).

(** ** Events of interest in a trace *)

Definition is_store (e : event) : bool :=
  match e with Store _ _ => true | _ => false end.

Definition is_engine_call (e : event) : bool :=
  match e with Load _ _ | Store _ _ => false | _ => true end.

Definition stores (tr : list event) : list event := List.filter is_store tr.

(** The coordinates passed to the forward transformation. *)
Fixpoint trans_inputs (tr : list event) : list PJ_COORD :=
  match tr with
  | [] => []
  | Call_trans _ PJ_FWD c _ :: tr' => c :: trans_inputs tr'
  | _ :: tr' => trans_inputs tr'
  end.

(** ** Resource protocol of the engine

    Live contexts, and live transformations with the context each one is
    bound to.  [res_step] refuses (with [None]) a call on a handle that is
    not live, a second release, and the release of a context that still
    has a transformation bound to it. *)
Record resources := mkRes {
  live_ctx : list Z;
  live_pj : list (Z * Z)
}.

Definition no_resources : resources := mkRes [] [].

Definition mem_Z (x : Z) (l : list Z) : bool := existsb (Z.eqb x) l.

Definition remove_Z (x : Z) (l : list Z) : list Z :=
  List.filter (fun y => negb (y =? x)) l.

Definition res_step (r : resources) (e : event) : option resources :=
  match e with
  | Call_context_create c =>
      if c =? 0 then Some r else Some (mkRes (c :: live_ctx r) (live_pj r))
  | Call_create_crs_to_crs c _ _ _ p =>
      if mem_Z c (live_ctx r) then
        if p =? 0 then Some r else Some (mkRes (live_ctx r) ((p, c) :: live_pj r))
      else None
  | Call_trans p _ _ _ | Call_errno p _ =>
      if mem_Z p (map fst (live_pj r)) then Some r else None
  | Call_destroy p =>
      if mem_Z p (map fst (live_pj r)) then
        Some (mkRes (live_ctx r)
                    (List.filter (fun q => negb (fst q =? p)) (live_pj r)))
      else None
  | Call_context_destroy c =>
      if mem_Z c (live_ctx r) && negb (mem_Z c (map snd (live_pj r))) then
        Some (mkRes (remove_Z c (live_ctx r)) (live_pj r))
      else None
  | Load _ _ | Store _ _ => Some r
  end.

Fixpoint res_run (r : resources) (tr : list event) : option resources :=
  match tr with
  | [] => Some r
  | e :: tr' => match res_step r e with
                | Some r' => res_run r' tr'
                | None => None
                end
  end.

(** ** Sample engines

    [toy_engine c p N]: context creation returns the handle [c], resolution
    the handle [p] (so [0] makes either fail).  The forward transformation
    is vertical-only: it adds the undulation [N lam phi] to the height and
    leaves the other three slots alone; it raises the error indicator, kept
    in the engine state, when the sum is not finite. *)
Definition is_finite (x : float) : bool :=
  negb (PrimFloat.is_nan x) && negb (PrimFloat.is_infinity x).

Definition toy_trans (N : float -> float -> float) (c : PJ_COORD) : PJ_COORD :=
  proj_coord (lam (lpzt c)) (phi (lpzt c))
             (z (lpzt c) + N (lam (lpzt c)) (phi (lpzt c)))%float
             (t (lpzt c)).

Definition toy_engine (c p : Z) (N : float -> float -> float) : Engine :=
  {| engine_state := Z;
     proj_context_create := fun s => (c, s);
     proj_create_crs_to_crs := fun _ _ _ _ s => (p, s);
     proj_trans := fun _ _ ci _ =>
       let co := toy_trans N ci in
       (co, if is_finite (z (lpzt co)) then 0 else 2049);
     proj_errno := fun _ s => s;
     proj_destroy := fun _ s => s;
     proj_context_destroy := fun _ s => s |}.

(** A constant undulation of -32.75 m, and a caller heap with an input
    struct at address 64 and an output struct at address 128. *)
Definition N_const : float -> float -> float := fun _ _ => (-32.75)%float.

Definition heap_of (i : EPSG9705) : gmap Z float :=
  <[64 := lat9705 i]> (<[72 := lon9705 i]> (<[80 := alt9705 i]>
  (<[128 := 0%float]> (<[136 := 0%float]> (<[144 := 0%float]> ∅))))).

Definition world_of (E : Engine) (s : engine_state E) (i : EPSG9705) : World E :=
  mkWorld (heap_of i) s [].

(** The end-to-end example of the specification (Statue of Liberty). *)
Definition liberty : EPSG9705 :=
  mkEPSG9705 0x1.45837b4a2339cp+5%float (-0x1.282d916872b02p+6)%float 0%float.

(** ** The five return paths of the function

    [path input output w r w'] lists, for each [return] of the C function,
    the conditions under which it is reached, the status [r] and the world
    [w'] left behind: heap, engine state and the events appended to the
    trace. *)
Section Paths.
Context {E : Engine}.
Variables (input output : Z) (w : World E).

Let SRC : string := "EPSG:9705".
Let DST : string := "EPSG:4979".

Inductive path : Z -> World E -> Prop :=
| path_null :
    input = 0 \/ output = 0 ->
    path (-1) w
| path_no_context s1 :
    input <> 0 -> output <> 0 ->
    proj_context_create E (eng w) = (0, s1) ->
    path (-2) (mkWorld (heap w) s1 (trace w ++ [Call_context_create 0]))
| path_no_transformation ctx s1 s2 :
    input <> 0 -> output <> 0 ->
    proj_context_create E (eng w) = (ctx, s1) -> ctx <> 0 ->
    proj_create_crs_to_crs E ctx SRC DST 0 s1 = (0, s2) ->
    path (-3)
         (mkWorld (heap w) (proj_context_destroy E ctx s2)
            (trace w ++ [Call_context_create ctx;
                         Call_create_crs_to_crs ctx SRC DST 0 0;
                         Call_context_destroy ctx]))
| path_apply_error ctx s1 P s2 i c_out s3 :
    input <> 0 -> output <> 0 ->
    proj_context_create E (eng w) = (ctx, s1) -> ctx <> 0 ->
    proj_create_crs_to_crs E ctx SRC DST 0 s1 = (P, s2) -> P <> 0 ->
    read_EPSG9705 (heap w) input = Some i ->
    proj_trans E P PJ_FWD (c_in_of i) s2 = (c_out, s3) ->
    proj_errno E P s3 <> 0 ->
    path (-4)
         (mkWorld (heap w)
            (proj_context_destroy E ctx (proj_destroy E P s3))
            (trace w ++ [Call_context_create ctx;
                         Call_create_crs_to_crs ctx SRC DST 0 P;
                         Load (input + off_lat) (lat9705 i);
                         Load (input + off_lon) (lon9705 i);
                         Load (input + off_alt) (alt9705 i);
                         Call_trans P PJ_FWD (c_in_of i) c_out;
                         Call_errno P (proj_errno E P s3);
                         Call_destroy P;
                         Call_context_destroy ctx]))
| path_success ctx s1 P s2 i c_out s3 :
    input <> 0 -> output <> 0 ->
    proj_context_create E (eng w) = (ctx, s1) -> ctx <> 0 ->
    proj_create_crs_to_crs E ctx SRC DST 0 s1 = (P, s2) -> P <> 0 ->
    read_EPSG9705 (heap w) input = Some i ->
    proj_trans E P PJ_FWD (c_in_of i) s2 = (c_out, s3) ->
    proj_errno E P s3 = 0 ->
    valid_ptr (heap w) output ->
    path 0
         (mkWorld (write_EPSG4979 (heap w) output (output_of c_out))
            (proj_context_destroy E ctx (proj_destroy E P s3))
            (trace w ++ [Call_context_create ctx;
                         Call_create_crs_to_crs ctx SRC DST 0 P;
                         Load (input + off_lat) (lat9705 i);
                         Load (input + off_lon) (lon9705 i);
                         Load (input + off_alt) (alt9705 i);
                         Call_trans P PJ_FWD (c_in_of i) c_out;
                         Call_errno P 0;
                         Store (output + off_lat) (lat4979 (output_of c_out));
                         Store (output + off_lon) (lon4979 (output_of c_out));
                         Store (output + off_alt) (alt4979 (output_of c_out));
                         Call_destroy P;
                         Call_context_destroy ctx])).
End Paths.

(** ** What the engine answers during a call from world [w]

    The engine is a function of its state, so its answers along the
    straight-line code of the function can be named in advance. *)
Section EngineAnswers.
Context {E : Engine}.
Variable w : World E.

Definition ctx_result : Z * engine_state E :=
  proj_context_create E (eng w).

Definition pj_result : Z * engine_state E :=
  proj_create_crs_to_crs E (fst ctx_result) "EPSG:9705" "EPSG:4979" 0
    (snd ctx_result).

Definition trans_result (i : EPSG9705) : PJ_COORD * engine_state E :=
  proj_trans E (fst pj_result) PJ_FWD (c_in_of i) (snd pj_result).

Definition errno_result (i : EPSG9705) : Z :=
  proj_errno E (fst pj_result) (snd (trans_result i)).
End EngineAnswers.

(** A pointer the caller may pass: [NULL], or the address of a struct. *)
Definition ptr_ok (h : gmap Z float) (p : Z) : Prop := p = 0 \/ valid_ptr h p.

(** The addresses of the three fields of the struct at [p]. *)
Definition fields_of (p : Z) : list Z := [p + off_lat; p + off_lon; p + off_alt].

(** The four error kinds of the interface, and their status codes. *)
Inductive error_kind :=
| InvalidArgument
| ContextCreationError
| TransformationResolutionError
| TransformationApplyError.

Definition status_of (k : error_kind) : Z :=
  match k with
  | InvalidArgument => -1
  | ContextCreationError => -2
  | TransformationResolutionError => -3
  | TransformationApplyError => -4
  end.

(** ** Real value of a double

    The number a finite binary64 value stands for; zeros, infinities and
    NaN are sent to 0, and [finite] tells them apart. *)
Definition SF2R (x : spec_float) : R :=
  match x with
  | S754_finite s m e => (IZR (cond_Zopp s (Zpos m)) * powerRZ 2 e)%R
  | _ => 0%R
  end.

Definition F2R (x : float) : R := SF2R (Prim2SF x).

Definition SFfinite (x : spec_float) : bool :=
  match x with
  | S754_finite _ _ _ | S754_zero _ => true
  | _ => false
  end.

Definition finite (x : float) : bool := SFfinite (Prim2SF x).

(** The events a call appended, recovered from the two traces. *)
Definition new_events {E} (w w' : World E) : list event :=
  skipn (length (trace w)) (trace w').

(** The sample engine with working handles, and the world in which the
    caller passes the example point. *)
Definition toyE : Engine := toy_engine 1000 2000 N_const.
Definition w_liberty : World toyE := world_of toyE 0 liberty.

(** Inputs no caller should pass: a latitude of 1000 degrees, and a
    triple with no finite field. *)
Definition wild : EPSG9705 :=
  mkEPSG9705 1000%float (-100000)%float 5%float.
Definition not_a_position : EPSG9705 :=
  mkEPSG9705 nan infinity nan.

Definition w_wild : World toyE := world_of toyE 0 wild.
Definition w_nan : World toyE := world_of toyE 0 not_a_position.

(** The same triple held at other addresses, over other prior contents of
    the output struct and an older trace. *)
Definition w_liberty_moved : World toyE :=
  mkWorld
    (<[1024 := lat9705 liberty]> (<[1032 := lon9705 liberty]>
     (<[1040 := alt9705 liberty]> (<[2048 := 1%float]>
     (<[2056 := 2%float]> (<[2064 := 3%float]> ∅))))))
    (0 : engine_state toyE) [Call_context_destroy 7].

(** ** Vocabulary for the rounding analysis

    The operations of binary64 are specified by [SpecFloat] on a sign, a
    mantissa and an exponent.  The analysis below follows a real number
    through them. *)

(** [2^e] as a real. *)
Definition bpow (e : Z) : R := powerRZ 2 e.

(** The smallest positive double, [2^-1074]. *)
Definition eta : R := bpow (-1074).

(** Magnitude and sign of a double on the specification side. *)
Definition SFmag (x : spec_float) : R :=
  match x with
  | S754_finite _ m e => (IZR (Zpos m) * bpow e)%R
  | _ => 0%R
  end.

Definition SFsign (x : spec_float) : bool :=
  match x with
  | S754_zero s | S754_infinity s | S754_finite s _ _ => s
  | S754_nan => false
  end.

(** [inb m l v]: the real [v] lies in [[m, m+1)] at the place the location
    [l] says (on [m], below the middle, on it, above it). *)
Definition inb (m : Z) (l : location) (v : R) : Prop :=
  match l with
  | loc_Exact => v = IZR m
  | loc_Inexact Lt => (IZR m < v < IZR m + 1 / 2)%R
  | loc_Inexact Eq => v = (IZR m + 1 / 2)%R
  | loc_Inexact Gt => (IZR m + 1 / 2 < v < IZR m + 1)%R
  end.

(** A shift record (mantissa, round bit, sticky bit) stands for [v]. *)
Definition represents (mrs : shr_record) (v : R) : Prop :=
  0 <= shr_m mrs /\ inb (shr_m mrs) (loc_of_shr_record mrs) v.

(** The last step of [binary_round_aux]: zero, a finite double, or an
    overflow to infinity. *)
Definition round_result (sx : bool) (mf ef : Z) : spec_float :=
  match mf with
  | Z0 => S754_zero sx
  | Zpos m =>
      if ef <=? emax - prec then S754_finite sx m ef else S754_infinity sx
  | Zneg _ => S754_nan
  end.

(** [M_PI] and [180.0] on the specification side. *)
Definition SF_PI : spec_float := S754_finite false 7074237752028440 (-51).
Definition SF_180 : spec_float := S754_finite false 6333186975989760 (-45).

(** Status and output struct of a call, for evaluation on examples. *)
Definition run_output {E} (input output : Z) (w : World E)
  : option (Z * option EPSG4979) :=
  match epsg4979_from_epsg9705 input output w with
  | Some (r, w') => Some (r, read_EPSG4979 (heap w') output)
  | None => None
  end.

(** A longitude of [1e16] degrees, which the interface does not exclude. *)
Definition far : EPSG9705 :=
  mkEPSG9705 0%float 10000000000000000%float 0%float.
Definition w_far : World toyE := world_of toyE 0 far.

(** ** Vocabulary for the further properties *)


Definition engine_calls (tr : list event) : list event :=
  List.filter is_engine_call tr.

Definition is_context_create (e : event) : bool :=
  match e with Call_context_create _ => true | _ => false end.

(** A caller that converts several positions one after the other, each
    call starting in the world the previous one left; the statuses are
    collected in order. *)
Fixpoint run_calls {E} (calls : list (Z * Z)) : M E (list Z) :=
  match calls with
  | [] => ret []
  | (input, output) :: rest =>
      r <- epsg4979_from_epsg9705 input output ;;
      rs <- run_calls rest ;;
      ret (r :: rs)
  end.

(** The calls of a list that pass the NULL check. *)
Definition non_null_calls (calls : list (Z * Z)) : list (Z * Z) :=
  List.filter (fun c => negb ((fst c =? 0) || (snd c =? 0))) calls.

(** An engine that reports no error and returns a coordinate with no finite
    slot, whatever it is given. *)
Definition silent_engine : Engine :=
  {| engine_state := unit;
     proj_context_create := fun s => (1000, s);
     proj_create_crs_to_crs := fun _ _ _ _ s => (2000, s);
     proj_trans := fun _ _ _ s => (proj_coord infinity nan neg_infinity nan, s);
     proj_errno := fun _ _ => 0;
     proj_destroy := fun _ s => s;
     proj_context_destroy := fun _ s => s |}.

Definition w_silent : World silent_engine := world_of silent_engine tt liberty.

(** A caller heap that maps the input struct at address 64 and nothing at
    the output address 128. *)
Definition w_no_output : World toyE :=
  mkWorld (<[64 := lat9705 liberty]> (<[72 := lon9705 liberty]>
           (<[80 := alt9705 liberty]> ∅))) (0 : engine_state toyE) [].

(** A finite longitude of about [1e308] degrees, above [2^1023]. *)
Definition beyond_range : EPSG9705 :=
  mkEPSG9705 0%float 0x1.1ccf385ebc8ap+1023%float 0%float.

(** Sign of a double: [true] for negative values, [-0] included. *)
Definition Fsign (x : float) : bool := SFsign (Prim2SF x).

(** ** The function follows exactly these paths *)

Ltac norm_trace :=
  unfold log; simpl; rewrite <- ?app_assoc; simpl.

Lemma write_mapped (h : gmap Z float) (p : Z) (v : EPSG4979) :
  valid_ptr h p ->
  is_Some (<[p + off_lat := lat4979 v]> h !! (p + off_lon)) /\
  is_Some (<[p + off_lon := lon4979 v]> (<[p + off_lat := lat4979 v]> h)
             !! (p + off_alt)).
Proof.
  intros (_ & Hlon & Halt). unfold off_lat, off_lon, off_alt in *.
  rewrite !lookup_insert_ne by lia. auto.
Qed.

(** Soundness: whatever the function returns, one of the paths explains it. *)
Lemma run_path {E} (input output : Z) (w : World E) (r : Z) (w' : World E) :
  epsg4979_from_epsg9705 input output w = Some (r, w') ->
  path input output w r w'.
Proof.
  unfold epsg4979_from_epsg9705.
  destruct (input =? 0) eqn:Hi; simpl.
  { intros [= <- <-]. apply path_null. left. lia. }
  destruct (output =? 0) eqn:Ho; simpl.
  { intros [= <- <-]. apply path_null. right. lia. }
  apply Z.eqb_neq in Hi, Ho.
  unfold bind at 1, call_context_create.
  destruct (proj_context_create E (eng w)) as [ctx s1] eqn:Hc.
  destruct (ctx =? 0) eqn:Hctx.
  { apply Z.eqb_eq in Hctx; subst ctx. intros [= <- <-].
    now apply path_no_context. }
  apply Z.eqb_neq in Hctx.
  unfold bind at 1, call_create_crs_to_crs; simpl.
  destruct (proj_create_crs_to_crs E ctx "EPSG:9705" "EPSG:4979" 0 s1)
    as [P s2] eqn:HP.
  destruct (P =? 0) eqn:HP0.
  { apply Z.eqb_eq in HP0; subst P. unfold bind, call_context_destroy, ret.
    simpl. intros [= <- <-]. norm_trace.
    eapply path_no_transformation; eauto. }
  apply Z.eqb_neq in HP0.
  unfold bind at 1, load at 1; simpl.
  destruct (heap w !! (input + off_lat)) as [a|] eqn:Ha; [|discriminate].
  unfold bind at 1, load at 1; simpl.
  destruct (heap w !! (input + off_lon)) as [b|] eqn:Hb; [|discriminate].
  unfold bind at 1, load at 1; simpl.
  destruct (heap w !! (input + off_alt)) as [c|] eqn:Hcc; [|discriminate].
  assert (Hread : read_EPSG9705 (heap w) input = Some (mkEPSG9705 a b c)).
  { unfold read_EPSG9705. now rewrite Ha, Hb, Hcc. }
  unfold bind at 1, call_trans; simpl.
  change (proj_coord (b * M_PI / 180) (a * M_PI / 180) c 0)
    with (c_in_of (mkEPSG9705 a b c)).
  destruct (proj_trans E P PJ_FWD (c_in_of (mkEPSG9705 a b c)) s2)
    as [c_out s3] eqn:Ht.
  unfold bind at 1, call_errno; simpl.
  destruct (proj_errno E P s3 =? 0) eqn:He; simpl.
  - apply Z.eqb_eq in He.
    unfold bind at 1, store at 1; simpl.
    destruct (heap w !! (output + off_lat)) as [o1|] eqn:Ho1; [|discriminate].
    unfold bind at 1, store at 1; simpl.
    destruct (<[output + off_lat := _]> (heap w) !! (output + off_lon))
      as [o2|] eqn:Ho2; [|discriminate].
    unfold bind at 1, store at 1; simpl.
    destruct (<[output + off_lon := _]> _ !! (output + off_alt))
      as [o3|] eqn:Ho3; [|discriminate].
    unfold bind, call_destroy, call_context_destroy, ret; simpl.
    intros [= <- <-]. norm_trace. rewrite He.
    assert (Hv : valid_ptr (heap w) output).
    { unfold valid_ptr, off_lat, off_lon, off_alt in *.
      rewrite !lookup_insert_ne in Ho3 by lia.
      rewrite !lookup_insert_ne in Ho2 by lia.
      rewrite Ho1, Ho2, Ho3. eauto. }
    exact (path_success input output w ctx s1 P s2 (mkEPSG9705 a b c)
             c_out s3 Hi Ho Hc Hctx HP HP0 Hread Ht He Hv).
  - apply Z.eqb_neq in He.
    unfold bind, call_destroy, call_context_destroy, ret; simpl.
    intros [= <- <-]. norm_trace.
    exact (path_apply_error input output w ctx s1 P s2 (mkEPSG9705 a b c)
             c_out s3 Hi Ho Hc Hctx HP HP0 Hread Ht He).
Qed.

(** Completeness: the conditions of a path make the function take it. *)
Lemma path_run {E} (input output : Z) (w : World E) (r : Z) (w' : World E) :
  path input output w r w' ->
  epsg4979_from_epsg9705 input output w = Some (r, w').
Proof.
  intros Hp. unfold epsg4979_from_epsg9705.
  destruct Hp as
    [ Hnull
    | s1 Hi Ho Hc
    | ctx s1 s2 Hi Ho Hc Hctx HP
    | ctx s1 P s2 i c_out s3 Hi Ho Hc Hctx HP HP0 Hr Ht He
    | ctx s1 P s2 i c_out s3 Hi Ho Hc Hctx HP HP0 Hr Ht He Hv ].
  - destruct Hnull as [-> | ->]; simpl; [reflexivity|].
    now rewrite orb_true_r.
  - apply Z.eqb_neq in Hi, Ho. rewrite Hi, Ho. simpl.
    unfold bind, call_context_create. now rewrite Hc.
  - apply Z.eqb_neq in Hi, Ho, Hctx. rewrite Hi, Ho. simpl.
    unfold bind at 1, call_context_create. rewrite Hc, Hctx.
    unfold bind at 1, call_create_crs_to_crs. simpl. rewrite HP. simpl.
    unfold bind, call_context_destroy, ret. simpl. now norm_trace.
  - apply Z.eqb_neq in Hi, Ho, Hctx, HP0, He. rewrite Hi, Ho. simpl.
    unfold bind at 1, call_context_create. rewrite Hc, Hctx.
    unfold bind at 1, call_create_crs_to_crs. simpl. rewrite HP, HP0.
    unfold read_EPSG9705 in Hr.
    destruct (heap w !! (input + off_lat)) as [a|] eqn:Ha; [|discriminate].
    destruct (heap w !! (input + off_lon)) as [b|] eqn:Hb; [|discriminate].
    destruct (heap w !! (input + off_alt)) as [c|] eqn:Hcc; [|discriminate].
    injection Hr as <-. simpl in *.
    unfold bind at 1, load at 1; simpl. rewrite Ha.
    unfold bind at 1, load at 1; simpl. rewrite Hb.
    unfold bind at 1, load at 1; simpl. rewrite Hcc.
    unfold bind at 1, call_trans; simpl.
    change (proj_coord (b * M_PI / 180) (a * M_PI / 180) c 0)
      with (c_in_of (mkEPSG9705 a b c)).
    rewrite Ht. unfold bind at 1, call_errno; simpl. rewrite He. simpl.
    unfold bind, call_destroy, call_context_destroy, ret. simpl.
    now norm_trace.
  - apply Z.eqb_neq in Hi, Ho, Hctx, HP0. rewrite Hi, Ho. simpl.
    unfold bind at 1, call_context_create. rewrite Hc, Hctx.
    unfold bind at 1, call_create_crs_to_crs. simpl. rewrite HP, HP0.
    unfold read_EPSG9705 in Hr.
    destruct (heap w !! (input + off_lat)) as [a|] eqn:Ha; [|discriminate].
    destruct (heap w !! (input + off_lon)) as [b|] eqn:Hb; [|discriminate].
    destruct (heap w !! (input + off_alt)) as [c|] eqn:Hcc; [|discriminate].
    injection Hr as <-. simpl in *.
    unfold bind at 1, load at 1; simpl. rewrite Ha.
    unfold bind at 1, load at 1; simpl. rewrite Hb.
    unfold bind at 1, load at 1; simpl. rewrite Hcc.
    unfold bind at 1, call_trans; simpl.
    change (proj_coord (b * M_PI / 180) (a * M_PI / 180) c 0)
      with (c_in_of (mkEPSG9705 a b c)).
    rewrite Ht. unfold bind at 1, call_errno; simpl. rewrite He. simpl.
    destruct (write_mapped (heap w) output (output_of c_out) Hv) as [H2 H3].
    destruct Hv as ([o1 Ho1] & _ & _).
    destruct H2 as [o2 Ho2]. destruct H3 as [o3 Ho3]. simpl in Ho2, Ho3.
    unfold bind at 1, store at 1; simpl. rewrite Ho1.
    unfold bind at 1, store at 1; simpl.
    change (rad2deg (phi (lpzt c_out))) with
      (phi (lpzt c_out) * 180 / M_PI)%float in Ho2, Ho3.
    change (rad2deg (lam (lpzt c_out))) with
      (lam (lpzt c_out) * 180 / M_PI)%float in Ho3.
    rewrite Ho2.
    unfold bind at 1, store at 1; simpl. rewrite Ho3.
    unfold bind, call_destroy, call_context_destroy, ret. simpl.
    now norm_trace.
Qed.

(** With pointers the caller may pass, the function always returns. *)
Lemma run_total {E} (input output : Z) (w : World E) :
  ptr_ok (heap w) input -> ptr_ok (heap w) output ->
  exists r w', epsg4979_from_epsg9705 input output w = Some (r, w').
Proof.
  intros Hin Hout.
  destruct (Z.eq_dec input 0) as [Hi|Hi].
  { exists (-1), w. apply path_run, path_null. now left. }
  destruct (Z.eq_dec output 0) as [Ho|Ho].
  { exists (-1), w. apply path_run, path_null. now right. }
  destruct Hin as [Hin|Hin]; [contradiction|].
  destruct Hout as [Hout|Hout]; [contradiction|].
  destruct (proj_context_create E (eng w)) as [ctx s1] eqn:Hc.
  destruct (Z.eq_dec ctx 0) as [->|Hctx].
  { eexists _, _. apply path_run. eapply path_no_context; eauto. }
  destruct (proj_create_crs_to_crs E ctx "EPSG:9705" "EPSG:4979" 0 s1)
    as [P s2] eqn:HP.
  destruct (Z.eq_dec P 0) as [->|HP0].
  { eexists _, _. apply path_run. eapply path_no_transformation; eauto. }
  assert (exists i, read_EPSG9705 (heap w) input = Some i) as [i Hr].
  { destruct Hin as ([a Ha] & [b Hb] & [c Hc']). unfold read_EPSG9705.
    rewrite Ha, Hb, Hc'. eauto. }
  destruct (proj_trans E P PJ_FWD (c_in_of i) s2) as [c_out s3] eqn:Ht.
  destruct (Z.eq_dec (proj_errno E P s3) 0) as [He|He].
  - eexists _, _. apply path_run. eapply path_success; eauto.
  - eexists _, _. apply path_run. eapply path_apply_error; eauto.
Qed.

(** Reading back a struct that was just written. *)
Lemma read_write_EPSG4979 (h : gmap Z float) (p : Z) (v : EPSG4979) :
  read_EPSG4979 (write_EPSG4979 h p v) p = Some v.
Proof.
  unfold read_EPSG4979, write_EPSG4979, off_lat, off_lon, off_alt.
  rewrite lookup_insert_eq.
  rewrite (lookup_insert_ne _ (p + 16) (p + 8)) by lia.
  rewrite lookup_insert_eq.
  rewrite (lookup_insert_ne _ (p + 16) (p + 0)) by lia.
  rewrite (lookup_insert_ne _ (p + 8) (p + 0)) by lia.
  rewrite lookup_insert_eq. now destruct v.
Qed.

(** Writing a struct leaves every other address alone. *)
Lemma write_EPSG4979_other (h : gmap Z float) (p : Z) (v : EPSG4979) (a : Z) :
  ~ In a (fields_of p) ->
  write_EPSG4979 h p v !! a = h !! a.
Proof.
  unfold fields_of, write_EPSG4979. simpl. intros Hn.
  rewrite !lookup_insert_ne; auto; intros Heq; apply Hn; rewrite Heq; tauto.
Qed.

Lemma new_events_app {E} (w w' : World E) (evs : list event) :
  trace w' = trace w ++ evs -> new_events w w' = evs.
Proof.
  intros H. unfold new_events. rewrite H. rewrite skipn_app.
  rewrite skipn_all, Nat.sub_diag. reflexivity.
Qed.

Ltac new_evs :=
  repeat match goal with
  | |- context [new_events ?w ?w'] =>
      erewrite (new_events_app w w') by (simpl; reflexivity)
  end.

Lemma new_events_refl {E} (w : World E) : new_events w w = [].
Proof. unfold new_events. now rewrite skipn_all. Qed.

Ltac res_solve :=
  unfold res_run, res_step, mem_Z, remove_Z, no_resources; simpl;
  repeat (rewrite ?Z.eqb_refl;
          repeat match goal with
                 | H : (_ =? _) = false |- _ => rewrite H
                 end; simpl);
  try reflexivity.

Lemma status_of_inj k k' : status_of k = status_of k' -> k = k'.
Proof. destruct k, k'; simpl; intros; congruence || lia. Qed.

Lemma pj_result_eq {E} (w : World E) ctx s1 r :
  proj_context_create E (eng w) = (ctx, s1) ->
  proj_create_crs_to_crs E ctx "EPSG:9705" "EPSG:4979" 0 s1 = r ->
  ctx_result w = (ctx, s1) /\ pj_result w = r.
Proof. intros Hc HP. unfold pj_result, ctx_result. now rewrite Hc. Qed.

Lemma trans_result_eq {E} (w : World E) ctx s1 P s2 i c_out s3 :
  proj_context_create E (eng w) = (ctx, s1) ->
  proj_create_crs_to_crs E ctx "EPSG:9705" "EPSG:4979" 0 s1 = (P, s2) ->
  proj_trans E P PJ_FWD (c_in_of i) s2 = (c_out, s3) ->
  trans_result w i = (c_out, s3) /\ errno_result w i = proj_errno E P s3.
Proof.
  intros Hc HP Ht. destruct (pj_result_eq w ctx s1 _ Hc HP) as [_ Ep].
  unfold errno_result, trans_result. rewrite Ep. simpl. now rewrite Ht.
Qed.

Ltac answers :=
  repeat match goal with
  | Hc : proj_context_create _ (eng ?w) = (?ctx, ?s1),
    HP : proj_create_crs_to_crs _ ?ctx _ _ _ ?s1 = (?P, ?s2),
    Ht : proj_trans _ ?P _ (c_in_of ?i) ?s2 = (?c, ?s3) |- _ =>
      destruct (trans_result_eq w ctx s1 P s2 i c s3 Hc HP Ht) as [?Et ?Ee];
      clear Ht
  | Hc : proj_context_create _ (eng ?w) = (?ctx, ?s1),
    HP : proj_create_crs_to_crs _ ?ctx _ _ _ ?s1 = ?r |- _ =>
      destruct (pj_result_eq w ctx s1 r Hc HP) as [?Ec ?Ep]; clear HP
  | Hc : proj_context_create _ (eng ?w) = ?r |- _ =>
      change (ctx_result w = r) in Hc
  end;
  repeat match goal with
  | H : ctx_result _ = _ |- _ => rewrite H in *; clear H
  | H : pj_result _ = _ |- _ => rewrite H in *; clear H
  | H : trans_result _ _ = _ |- _ => rewrite H in *; clear H
  | H : errno_result _ _ = _ |- _ => rewrite H in *; clear H
  end; simpl fst in *; simpl snd in *.

(** * Rounding error of the unit conversions

    [x * M_PI / 180.0] and [x * 180.0 / M_PI] are two binary64 operations
    each.  Their specification ([SFmul], [SFdiv]) rounds an exact product
    or quotient through [binary_round_aux]; the lemmas below bound the
    distance between what it returns and the exact real. *)

Module Rounding.

(** ** Powers of two *)

Lemma bpow_pos e : (0 < bpow e)%R.
Proof. apply powerRZ_lt. lra. Qed.

Lemma bpow_add a b : bpow (a + b) = (bpow a * bpow b)%R.
Proof. apply powerRZ_add. lra. Qed.

Lemma bpow_0 : bpow 0 = 1%R.
Proof. reflexivity. Qed.

Lemma bpow_1 : bpow 1 = 2%R.
Proof. unfold bpow. simpl. lra. Qed.

Lemma bpow_opp a : bpow (- a) = (/ bpow a)%R.
Proof. apply powerRZ_neg'. Qed.

Lemma bpow_Zpos p : bpow (Zpos p) = IZR (Z.pow_pos 2 p).
Proof. unfold bpow. now rewrite Zpower_pos_powerRZ. Qed.

Lemma bpow_Zneg p : bpow (Zneg p) = (/ IZR (Z.pow_pos 2 p))%R.
Proof.
  change (Zneg p) with (- Zpos p). now rewrite bpow_opp, bpow_Zpos.
Qed.

Lemma bpow_ge_1 n : 0 <= n -> (1 <= bpow n)%R.
Proof.
  intros Hn. destruct n as [|p|p]; [rewrite bpow_0; lra| |lia].
  rewrite bpow_Zpos. apply IZR_le.
  rewrite Z.pow_pos_fold. 
  assert (0 < 2 ^ Z.pos p) by (apply Z.pow_pos_nonneg; lia). lia.
Qed.

Lemma bpow_le a b : a <= b -> (bpow a <= bpow b)%R.
Proof.
  intros H. replace b with (a + (b - a)) by lia. rewrite bpow_add.
  pose proof (bpow_pos a). pose proof (bpow_ge_1 (b - a) ltac:(lia)).
  nra.
Qed.

Lemma bpow_lt_inv a b : (bpow a < bpow b)%R -> a < b.
Proof.
  intros H. destruct (Z_lt_le_dec a b) as [|Hle]; [assumption|].
  apply bpow_le in Hle. lra.
Qed.

Lemma bpow_succ a : bpow (a + 1) = (2 * bpow a)%R.
Proof. rewrite bpow_add, bpow_1. lra. Qed.

(** ** Number of binary digits *)

Lemma IZR_pow2 n : 0 <= n -> IZR (2 ^ n) = bpow n.
Proof.
  intros Hn. destruct n as [|p|p]; [reflexivity| |lia].
  now rewrite bpow_Zpos.
Qed.

Lemma digits2_pos_bounds_Z (m : positive) :
  2 ^ (Zpos (digits2_pos m) - 1) <= Zpos m < 2 ^ Zpos (digits2_pos m).
Proof.
  induction m as [m IH|m IH|]; simpl digits2_pos.
  - rewrite Pos2Z.inj_succ.
    replace (Z.succ (Z.pos (digits2_pos m)) - 1)
      with (Z.succ (Z.pos (digits2_pos m) - 1)) by lia.
    rewrite !Z.pow_succ_r by lia. lia.
  - rewrite Pos2Z.inj_succ.
    replace (Z.succ (Z.pos (digits2_pos m)) - 1)
      with (Z.succ (Z.pos (digits2_pos m) - 1)) by lia.
    rewrite !Z.pow_succ_r by lia. lia.
  - simpl. lia.
Qed.

Lemma digits2_pos_bounds (m : positive) :
  (bpow (Zpos (digits2_pos m) - 1) <= IZR (Zpos m) /\
   IZR (Zpos m) + 1 <= bpow (Zpos (digits2_pos m)))%R.
Proof.
  destruct (digits2_pos_bounds_Z m) as [Hl Hu].
  rewrite <- !IZR_pow2 by lia. split.
  - now apply IZR_le.
  - rewrite <- plus_IZR. apply IZR_le. lia.
Qed.

Lemma Zdigits2_bounds (m : Z) :
  0 <= m ->
  (bpow (Zdigits2 m - 1) <= IZR m + 1 /\ IZR m + 1 <= bpow (Zdigits2 m))%R.
Proof.
  intros Hm. destruct m as [|p|p]; [| |lia].
  - unfold bpow. simpl. lra.
  - simpl Zdigits2. pose proof (digits2_pos_bounds p). lra.
Qed.

(** ** Locations *)

Lemma inb_range m l v : inb m l v -> (IZR m <= v < IZR m + 1)%R.
Proof. destruct l as [|[| |]]; simpl; lra. Qed.

Lemma represents_of_loc m l v :
  0 <= m -> inb m l v -> represents (shr_record_of_loc m l) v.
Proof.
  intros Hm H. unfold represents. destruct l as [|[| |]]; simpl; auto.
Qed.

Lemma shr_1_represents mrs v :
  represents mrs v -> represents (shr_1 mrs) (v / 2).
Proof.
  destruct mrs as [m r s]. unfold represents. simpl shr_m at 1 2.
  intros [Hm H].
  destruct m as [|[p|p|]|p]; try lia;
    destruct r, s;
    cbn [shr_1 shr_m shr_r shr_s loc_of_shr_record inb orb] in *;
    try rewrite (IZR_POS_xI p) in H; try rewrite (IZR_POS_xO p) in H;
    (split; [lia|]); lra.
Qed.

Lemma iter_pos_shr_1_represents p : forall mrs v,
  represents mrs v ->
  represents (SpecFloat.iter_pos shr_1 p mrs) (v / bpow (Zpos p)).
Proof.
  induction p as [p IH|p IH|]; intros mrs v H; simpl SpecFloat.iter_pos.
  - apply shr_1_represents in H. apply IH in H. apply IH in H.
    replace (v / bpow (Z.pos p~1))%R with (v / 2 / bpow (Z.pos p) / bpow (Z.pos p))%R; [exact H|].
    rewrite Pos2Z.inj_xI, <- Z.add_diag, !bpow_add, bpow_1.
    pose proof (bpow_pos (Z.pos p)). field. lra.
  - apply IH in H. apply IH in H.
    replace (v / bpow (Z.pos p~0))%R with (v / bpow (Z.pos p) / bpow (Z.pos p))%R; [exact H|].
    rewrite Pos2Z.inj_xO, <- Z.add_diag, !bpow_add.
    pose proof (bpow_pos (Z.pos p)). field. lra.
  - apply shr_1_represents in H. now rewrite bpow_1.
Qed.

Lemma shr_represents mrs e n v :
  represents mrs v ->
  represents (fst (shr mrs e n)) (v / bpow (Z.max 0 n)) /\
  snd (shr mrs e n) = e + Z.max 0 n.
Proof.
  intros H. destruct n as [|p|p]; unfold shr; cbn [fst snd].
  - change (Z.max 0 0) with 0. rewrite bpow_0.
    split; [now replace (v / 1)%R with v by lra|lia].
  - change (Z.max 0 (Z.pos p)) with (Z.pos p).
    split; [now apply iter_pos_shr_1_represents|reflexivity].
  - change (Z.max 0 (Z.neg p)) with 0. rewrite bpow_0.
    split; [now replace (v / 1)%R with v by lra|lia].
Qed.

(** ** Rounding to nearest even, and the two shifts around it *)

Lemma round_nearest_even_spec m l v :
  0 <= m -> inb m l v ->
  0 <= round_nearest_even m l /\
  (- (1 / 2) <= IZR (round_nearest_even m l) - v <= 1 / 2)%R.
Proof.
  intros Hm H. destruct l as [|[| |]]; cbn [round_nearest_even inb] in *.
  - split; [lia|lra].
  - destruct (IntDef.Z.even m); [split; [lia|lra]|].
    split; [lia|]. rewrite plus_IZR. lra.
  - split; [lia|lra].
  - split; [lia|]. rewrite plus_IZR. lra.
Qed.

Lemma fexp_eq e : fexp prec emax e = Z.max (e - 53) (-1074).
Proof. reflexivity. Qed.

Lemma digits_bpow m e :
  0 <= m ->
  (bpow (Zdigits2 m + e - 53) <= (IZR m + 1) * bpow e * bpow (-52))%R.
Proof.
  intros Hm. destruct (Zdigits2_bounds m Hm) as [Hl _].
  replace (Zdigits2 m + e - 53) with ((Zdigits2 m - 1) + (e + -52)) by lia.
  rewrite !bpow_add.
  pose proof (bpow_pos e). pose proof (bpow_pos (-52)).
  pose proof (bpow_pos (Zdigits2 m - 1)).
  assert (0 < bpow e * bpow (-52))%R by nra. nra.
Qed.

Lemma shr_fexp_spec m e l v :
  0 <= m -> inb m l v ->
  exists k,
    0 <= k /\
    snd (shr_fexp prec emax m e l) = e + k /\
    represents (fst (shr_fexp prec emax m e l)) (v / bpow k) /\
    (bpow (e + k) <= bpow e + bpow (Zdigits2 m + e - 53) + bpow (-1074))%R.
Proof.
  intros Hm H. unfold shr_fexp. rewrite fexp_eq.
  set (n := Z.max (Zdigits2 m + e - 53) (-1074) - e).
  destruct (shr_represents (shr_record_of_loc m l) e n v) as [Hr He].
  { now apply represents_of_loc. }
  exists (Z.max 0 n). repeat split; try lia; try assumption.
  - apply Hr.
  - apply Hr.
  - pose proof (bpow_pos e). pose proof (bpow_pos (-1074)).
    pose proof (bpow_pos (Zdigits2 m + e - 53)).
    assert (Hc : e + Z.max 0 n = e \/ e + Z.max 0 n = Zdigits2 m + e - 53 \/
                 e + Z.max 0 n = -1074) by lia.
    destruct Hc as [-> | [-> | ->]]; lra.
Qed.

Lemma bpow_m52 : bpow (-52) = (/ 4503599627370496)%R.
Proof. now rewrite bpow_Zneg. Qed.

(** The result of [binary_round_aux] on a mantissa [mx], exponent [ex] and
    location [lx] that stand for the real [v * 2^ex]: its own mantissa and
    exponent, within one and a half units of that exponent from the real,
    and a bound on the exponent. *)
Lemma binary_round_aux_spec sx mx ex lx v :
  0 <= mx -> inb mx lx v ->
  exists mf ef,
    0 <= mf /\
    binary_round_aux prec emax sx mx ex lx = round_result sx mf ef /\
    (- (3 / 2 * bpow ef) <= IZR mf * bpow ef - v * bpow ex <= 3 / 2 * bpow ef)%R /\
    (bpow ef <= 3 * bpow ex + 3 * bpow (-1074) + 3 * bpow (-52) * (v * bpow ex))%R.
Proof.
  intros Hmx Hinb. unfold binary_round_aux.
  destruct (shr_fexp_spec mx ex lx v Hmx Hinb) as (k1 & Hk1 & He1 & Hr1 & Hb1).
  destruct (shr_fexp prec emax mx ex lx) as [mrs' e']. cbn [fst snd] in *.
  destruct Hr1 as [Hm' Hinb'].
  destruct (round_nearest_even_spec _ _ _ Hm' Hinb') as [Hm1 Hrne].
  set (m1 := round_nearest_even (shr_m mrs') (loc_of_shr_record mrs')) in *.
  destruct (shr_fexp_spec m1 e' loc_Exact (IZR m1) Hm1 eq_refl)
    as (k2 & Hk2 & He2 & Hr2 & Hb2).
  destruct (shr_fexp prec emax m1 e' loc_Exact) as [mrs'' e''].
  cbn [fst snd] in *.
  destruct Hr2 as [Hmf Hinbf]. apply inb_range in Hinbf.
  exists (shr_m mrs''), e''. split; [exact Hmf|]. split; [reflexivity|].
  subst e' e''.
  pose proof (digits_bpow mx ex Hmx) as Hd1.
  pose proof (digits_bpow m1 (ex + k1) Hm1) as Hd2.
  apply inb_range in Hinb.
  rewrite bpow_m52 in *.
  rewrite !bpow_add in *.
  pose proof (bpow_pos ex) as HA. pose proof (bpow_pos k1) as HK1.
  pose proof (bpow_pos k2) as HK2. pose proof (bpow_pos (-1074)) as HM.
  set (A := bpow ex) in *. set (K1 := bpow k1) in *. set (K2 := bpow k2) in *.
  set (M := bpow (-1074)) in *.
  set (d1 := bpow (Zdigits2 mx + ex - 53)) in *.
  set (d2 := bpow (Zdigits2 m1 + (ex + k1) - 53)) in *.
  set (x1 := IZR m1) in *. set (xf := IZR (shr_m mrs'')) in *.
  set (x0 := IZR mx) in *.
  assert (HB : (0 < A * K1)%R) by nra.
  assert (Hv1 : (v / K1 * (A * K1) = v * A)%R) by (field; lra).
  assert (Hx1 : (x1 / K2 * (A * K1 * K2) = x1 * (A * K1))%R) by (field; lra).
  assert (HK1' : (1 <= K1)%R) by (apply bpow_ge_1; lia).
  assert (HK2' : (1 <= K2)%R) by (apply bpow_ge_1; lia).
  assert (Hv0 : (0 <= v)%R).
  { assert (0 <= x0)%R by (apply IZR_le; lia). lra. }
  (* the value after rounding, in absolute units *)
  assert (H1 : (- (A * K1 / 2) <= x1 * (A * K1) - v * A <= A * K1 / 2)%R).
  { rewrite <- Hv1. nra. }
  (* the value after the second shift *)
  assert (H2 : (xf * (A * K1 * K2) <= x1 * (A * K1) <=
                xf * (A * K1 * K2) + A * K1 * K2)%R).
  { rewrite <- Hx1. assert (0 < A * K1 * K2)%R by nra. nra. }
  assert (HBC : (A * K1 <= A * K1 * K2)%R) by nra.
  split; [lra|].
  assert (Hd1' : (d1 <= (v * A + A) * / 4503599627370496)%R) by nra.
  assert (Hd2' : (d2 <= (x1 * (A * K1) + A * K1) * / 4503599627370496)%R) by nra.
  lra.
Qed.

(** ** Sign and magnitude of a double *)

Lemma SF2R_sign_mag x :
  SF2R x = if SFsign x then (- SFmag x)%R else SFmag x.
Proof.
  destruct x as [[]|[]| |[] m e]; cbn [SF2R SFsign SFmag cond_Zopp];
    try lra; unfold bpow; [|reflexivity].
  change (IZR (IntDef.Z.opp (Z.pos m))) with (- IZR (Z.pos m))%R. lra.
Qed.

Lemma SFmag_nonneg x : (0 <= SFmag x)%R.
Proof.
  destruct x as [s|s| |s m e]; simpl; try lra.
  pose proof (bpow_pos e). assert (0 < IZR (Z.pos m))%R by (apply IZR_lt; lia).
  nra.
Qed.

Lemma eta_pos : (0 < eta)%R.
Proof. apply bpow_pos. Qed.

Lemma eta_le : (eta <= / 4503599627370496)%R.
Proof. rewrite <- bpow_m52. apply bpow_le. lia. Qed.

(** Rounding a real [V = v * 2^ex] of moderate size, given on an exponent
    fine enough for it: the result is finite, has the sign asked for, and
    its magnitude is within [9 * 2^-52 * V + 9 * eta] of [V]. *)
Lemma round_finish sx mx ex lx v :
  0 <= mx -> inb mx lx v ->
  (bpow ex <= bpow (-52) * (v * bpow ex) + eta)%R ->
  (v * bpow ex <= 1099511627776)%R ->
  let r := binary_round_aux prec emax sx mx ex lx in
  SFfinite r = true /\ SFsign r = sx /\
  (- (9 * bpow (-52) * (v * bpow ex) + 9 * eta) <=
     SFmag r - v * bpow ex <=
   9 * bpow (-52) * (v * bpow ex) + 9 * eta)%R.
Proof.
  intros Hmx Hinb Hfine Hsmall r.
  destruct (binary_round_aux_spec sx mx ex lx v Hmx Hinb)
    as (mf & ef & Hmf & Hr & Herr & Hef).
  fold r in Hr. fold eta in Hef.
  pose proof eta_pos as He. pose proof eta_le as He'.
  assert (Hv : (0 <= v * bpow ex)%R).
  { apply inb_range in Hinb. pose proof (bpow_pos ex).
    assert (0 <= IZR mx)%R by (apply IZR_le; lia). nra. }
  rewrite bpow_m52 in *.
  assert (Hef1 : (bpow ef < bpow 1)%R) by (rewrite bpow_1; lra).
  apply bpow_lt_inv in Hef1.
  assert (Hmag : SFfinite r = true /\ SFsign r = sx /\
                 SFmag r = (IZR mf * bpow ef)%R).
  { rewrite Hr. unfold round_result. destruct mf as [|m|m]; [| |lia].
    - simpl. repeat split; lra.
    - replace (ef <=? emax - prec) with true
        by (symmetry; apply Z.leb_le; unfold emax, prec; lia).
      simpl. auto. }
  destruct Hmag as (Hf & Hs & Hm). rewrite Hm.
  repeat split; try assumption; lra.
Qed.

(** ** Multiplication by a positive normal constant *)

Lemma SFmul_const x mc ec :
  SFfinite x = true ->
  4503599627370496 <= Zpos mc ->
  (SFmag x * SFmag (S754_finite false mc ec) <= 1099511627776)%R ->
  let V := (SFmag x * SFmag (S754_finite false mc ec))%R in
  let r := SFmul prec emax x (S754_finite false mc ec) in
  SFfinite r = true /\ SFsign r = SFsign x /\
  (- (9 * bpow (-52) * V + 9 * eta) <= SFmag r - V <=
   9 * bpow (-52) * V + 9 * eta)%R.
Proof.
  intros Hfin Hmc Hsmall V r. subst V r.
  pose proof eta_pos as He. pose proof (bpow_pos (-52)) as Ht.
  destruct x as [s|s| |s m e]; try discriminate.
  - cbn [SFmul SFfinite SFsign SFmag]. rewrite xorb_false_r.
    repeat split; lra.
  - cbn [SFmul SFsign]. rewrite xorb_false_r.
    assert (HV : (IZR (Z.pos (m * mc)) * bpow (e + ec) =
                  SFmag (S754_finite s m e) * SFmag (S754_finite false mc ec))%R).
    { cbn [SFmag]. rewrite Pos2Z.inj_mul, mult_IZR, bpow_add. ring. }
    rewrite <- HV in *.
    apply round_finish; [lia|reflexivity| |exact Hsmall].
    rewrite Pos2Z.inj_mul, mult_IZR, bpow_m52.
    pose proof (bpow_pos (e + ec)).
    assert (1 <= IZR (Z.pos m))%R by (apply IZR_le; lia).
    assert (4503599627370496 <= IZR (Z.pos mc))%R by (apply IZR_le; lia).
    assert (4503599627370496 <= IZR (Z.pos m) * IZR (Z.pos mc))%R by nra.
    nra.
Qed.

(** ** Division by a positive constant *)

Lemma inb_shift q l f : inb 0 l f -> inb q l (IZR q + f).
Proof. destruct l as [|[| |]]; cbn [inb]; lra. Qed.

Lemma new_location_spec n k :
  0 < n -> 0 <= k < n -> inb 0 (new_location n k) (IZR k / IZR n).
Proof.
  intros Hn Hk.
  assert (HnR : (0 < IZR n)%R) by (apply IZR_lt; lia).
  assert (Hx : (IZR k / IZR n * IZR n = IZR k)%R) by (field; lra).
  set (x := (IZR k / IZR n)%R) in *.
  unfold new_location, new_location_even, new_location_odd.
  destruct (IntDef.Z.even n) eqn:Heven.
  - destruct (Z.eqb_spec k 0) as [->|Hk0].
    + cbn [inb]. nra.
    + assert (1 <= IZR k)%R by (apply IZR_le; lia).
      destruct (Z.compare_spec (2 * k) n) as [Hc|Hc|Hc]; cbn [inb].
      * apply (f_equal IZR) in Hc. rewrite mult_IZR in Hc. nra.
      * apply IZR_lt in Hc. rewrite mult_IZR in Hc. nra.
      * apply IZR_lt in Hc. rewrite mult_IZR in Hc.
        assert (IZR k < IZR n)%R by (apply IZR_lt; lia). nra.
  - destruct (Z.eqb_spec k 0) as [->|Hk0].
    + cbn [inb]. nra.
    + assert (1 <= IZR k)%R by (apply IZR_le; lia).
      assert (Hodd : 2 * k <> n).
      { intros <-. change (IntDef.Z.even (2 * k)) with (Z.even (2 * k)) in Heven.
        rewrite Z.even_mul in Heven. discriminate. }
      destruct (Z.compare_spec (2 * k + 1) n) as [Hc|Hc|Hc]; cbn [inb].
      * assert (Hc' : 2 * k < n) by lia.
        apply IZR_lt in Hc'. rewrite mult_IZR in Hc'. nra.
      * assert (Hc' : 2 * k < n) by lia.
        apply IZR_lt in Hc'. rewrite mult_IZR in Hc'. nra.
      * assert (Hc' : n < 2 * k) by lia.
        apply IZR_lt in Hc'. rewrite mult_IZR in Hc'.
        assert (IZR k < IZR n)%R by (apply IZR_lt; lia). nra.
Qed.

Lemma SFdiv_core_binary_spec (m1 m2 : positive) e1 e2 :
  exists q e' l,
    SFdiv_core_binary prec emax (Zpos m1) e1 (Zpos m2) e2 = (q, e', l) /\
    0 <= q /\
    exists v, inb q l v /\
      (v * bpow e' = IZR (Zpos m1) * bpow e1 / (IZR (Zpos m2) * bpow e2))%R /\
      (bpow e' <= bpow (-52) * (v * bpow e') + eta)%R.
Proof.
  unfold SFdiv_core_binary. rewrite fexp_eq.
  set (d1 := Zdigits2 (Z.pos m1)). set (d2 := Zdigits2 (Z.pos m2)).
  set (e' := Z.min (Z.max (d1 + e1 - (d2 + e2) - 53) (-1074)) (e1 - e2)).
  set (s := e1 - e2 - e').
  assert (Hs : 0 <= s) by (unfold s, e'; lia).
  set (m' := match s with
             | 0 => Z.pos m1
             | Z.pos _ => Z.shiftl (Z.pos m1) s
             | Z.neg _ => 0
             end).
  assert (Hm' : m' = Z.pos m1 * 2 ^ s).
  { unfold m'. destruct s as [|p|p]; [lia| |lia].
    now rewrite Z.shiftl_mul_pow2 by lia. }
  pose proof (Z_div_mod m' (Z.pos m2) ltac:(lia)) as Hdiv.
  change (IntDef.Z.div_eucl m' (Z.pos m2)) with (Z.div_eucl m' (Z.pos m2)).
  destruct (Z.div_eucl m' (Z.pos m2)) as [q r]. destruct Hdiv as [Hq Hr].
  assert (Hm'pos : 0 < m').
  { rewrite Hm'. assert (0 < 2 ^ s) by (apply Z.pow_pos_nonneg; lia). nia. }
  assert (Hq0 : 0 <= q) by nia.
  exists q, e', (new_location (Z.pos m2) r).
  split; [reflexivity|]. split; [exact Hq0|].
  exists (IZR q + IZR r / IZR (Z.pos m2))%R.
  assert (Hm2 : (0 < IZR (Z.pos m2))%R) by (apply IZR_lt; lia).
  assert (Hm1 : (0 < IZR (Z.pos m1))%R) by (apply IZR_lt; lia).
  assert (Hv : (IZR q + IZR r / IZR (Z.pos m2) =
                IZR (Z.pos m1) * bpow s / IZR (Z.pos m2))%R).
  { rewrite <- (IZR_pow2 s Hs), <- mult_IZR, <- Hm', Hq.
    rewrite plus_IZR, mult_IZR. field. lra. }
  assert (Hval : ((IZR q + IZR r / IZR (Z.pos m2)) * bpow e' =
                  IZR (Z.pos m1) * bpow e1 / (IZR (Z.pos m2) * bpow e2))%R).
  { rewrite Hv. replace e1 with (s + e' + e2) by (unfold s; lia).
    rewrite !bpow_add.
    pose proof (bpow_pos e2). pose proof (bpow_pos e'). field. lra. }
  split; [apply inb_shift, new_location_spec; lia|].
  split; [exact Hval|].
  rewrite Hval.
  (* the exponent is fine enough for the quotient *)
  pose proof (digits2_pos_bounds m1) as [Hd1 _].
  pose proof (digits2_pos_bounds m2) as [_ Hd2].
  fold (Zdigits2 (Z.pos m1)) in Hd1. fold d1 in Hd1.
  fold (Zdigits2 (Z.pos m2)) in Hd2. fold d2 in Hd2.
  pose proof eta_pos as He.
  assert (Hc : e' <= -1074 \/ e' <= d1 + e1 - (d2 + e2) - 53) by (unfold e'; lia).
  destruct Hc as [Hc|Hc].
  - apply bpow_le in Hc. fold eta in Hc.
    pose proof (bpow_pos (-52)). pose proof (bpow_pos e1). pose proof (bpow_pos e2).
    assert (0 < IZR (Z.pos m1) * bpow e1 / (IZR (Z.pos m2) * bpow e2))%R.
    { apply Rdiv_lt_0_compat; nra. }
    nra.
  - apply bpow_le in Hc.
    replace (d1 + e1 - (d2 + e2) - 53) with ((d1 - 1) + e1 + - d2 + - e2 + -52)
      in Hc by lia.
    rewrite !bpow_add, !bpow_opp in Hc.
    pose proof (bpow_pos (-52)) as Ht. pose proof (bpow_pos e1) as H1.
    pose proof (bpow_pos e2) as H2. pose proof (bpow_pos d2) as H3.
    pose proof (bpow_pos (d1 - 1)) as H4.
    assert (Hinv : (/ bpow d2 <= / IZR (Z.pos m2))%R).
    { apply Rinv_le_contravar; lra. }
    assert (H5 : (0 < / bpow d2)%R) by (apply Rinv_0_lt_compat; lra).
    assert (H6 : (0 < / bpow e2)%R) by (apply Rinv_0_lt_compat; lra).
    replace (IZR (Z.pos m1) * bpow e1 / (IZR (Z.pos m2) * bpow e2))%R
      with ((IZR (Z.pos m1) * bpow e1) * (/ IZR (Z.pos m2) * / bpow e2))%R
      by (field; lra).
    apply Rle_trans with (1 := Hc).
    assert (bpow (d1 - 1) * bpow e1 <= IZR (Z.pos m1) * bpow e1)%R by nra.
    assert (/ bpow d2 * / bpow e2 <= / IZR (Z.pos m2) * / bpow e2)%R by nra.
    assert (0 < bpow (d1 - 1) * bpow e1)%R by nra.
    assert (0 < / bpow d2 * / bpow e2)%R by nra.
    assert (bpow (d1 - 1) * bpow e1 * (/ bpow d2 * / bpow e2) <=
            IZR (Z.pos m1) * bpow e1 * (/ IZR (Z.pos m2) * / bpow e2))%R.
    { apply Rmult_le_compat; lra. }
    nra.
Qed.

Lemma SFdiv_const x mc ec :
  SFfinite x = true ->
  (SFmag x / SFmag (S754_finite false mc ec) <= 1099511627776)%R ->
  let V := (SFmag x / SFmag (S754_finite false mc ec))%R in
  let r := SFdiv prec emax x (S754_finite false mc ec) in
  SFfinite r = true /\ SFsign r = SFsign x /\
  (- (9 * bpow (-52) * V + 9 * eta) <= SFmag r - V <=
   9 * bpow (-52) * V + 9 * eta)%R.
Proof.
  intros Hfin Hsmall V r. subst V r.
  pose proof eta_pos as He. pose proof (bpow_pos (-52)) as Ht.
  destruct x as [s|s| |s m e]; try discriminate.
  - cbn [SFdiv SFfinite SFsign]. rewrite xorb_false_r.
    replace (SFmag (S754_zero s) / SFmag (S754_finite false mc ec))%R with 0%R
      by (cbn [SFmag]; unfold Rdiv; ring).
    cbn [SFmag]. repeat split; lra.
  - cbn [SFdiv SFsign]. rewrite xorb_false_r.
    destruct (SFdiv_core_binary_spec m mc e ec)
      as (q & e' & l & Hcore & Hq & v & Hinb & Hval & Hfine).
    rewrite Hcore. cbn [SFmag] in *. rewrite <- Hval in *.
    now apply round_finish.
Qed.

(** ** The constants of the conversion *)

Lemma SFmag_PI : SFmag SF_PI = (7074237752028440 / 2251799813685248)%R.
Proof. cbn [SFmag SF_PI]. rewrite bpow_Zneg. reflexivity. Qed.

Lemma SFmag_180 : SFmag SF_180 = 180%R.
Proof.
  cbn [SFmag SF_180]. rewrite bpow_Zneg.
  change (IZR (Z.pow_pos 2 45)) with 35184372088832%R. lra.
Qed.

(** Degrees to radians and back, on the specification side: the drift of
    the round trip is at most [1e-9] for magnitudes up to [100000]. *)
Lemma SF_roundtrip x :
  SFfinite x = true ->
  (SFmag x <= 100000)%R ->
  let rad := SFdiv prec emax (SFmul prec emax x SF_PI) SF_180 in
  let deg := SFdiv prec emax (SFmul prec emax rad SF_180) SF_PI in
  SFfinite deg = true /\ SFsign deg = SFsign x /\
  (- (1 / 1000000000) <= SFmag deg - SFmag x <= 1 / 1000000000)%R.
Proof.
  intros Hfin Hx rad deg. subst rad deg.
  pose proof (SFmag_nonneg x) as Hx0.
  pose proof eta_pos as He. pose proof eta_le as He'.
  (* x * M_PI *)
  destruct (SFmul_const x 7074237752028440 (-51) Hfin ltac:(lia))
    as (Hf1 & Hs1 & Hb1).
  { fold SF_PI. rewrite SFmag_PI. lra. }
  fold SF_PI in *. set (a := SFmul prec emax x SF_PI) in *.
  pose proof (SFmag_nonneg a) as Ha0.
  rewrite SFmag_PI, bpow_m52 in Hb1.
  (* ... / 180 *)
  destruct (SFdiv_const a 6333186975989760 (-45) Hf1) as (Hf2 & Hs2 & Hb2).
  { fold SF_180. rewrite SFmag_180. lra. }
  fold SF_180 in *. set (b := SFdiv prec emax a SF_180) in *.
  pose proof (SFmag_nonneg b) as Hb0.
  rewrite SFmag_180, bpow_m52 in Hb2.
  (* ... * 180 *)
  destruct (SFmul_const b 6333186975989760 (-45) Hf2 ltac:(lia))
    as (Hf3 & Hs3 & Hb3).
  { fold SF_180. rewrite SFmag_180. lra. }
  fold SF_180 in *. set (c := SFmul prec emax b SF_180) in *.
  pose proof (SFmag_nonneg c) as Hc0.
  rewrite SFmag_180, bpow_m52 in Hb3.
  (* ... / M_PI *)
  destruct (SFdiv_const c 7074237752028440 (-51) Hf3) as (Hf4 & Hs4 & Hb4).
  { fold SF_PI. rewrite SFmag_PI. lra. }
  fold SF_PI in *. set (d := SFdiv prec emax c SF_PI) in *.
  rewrite SFmag_PI, bpow_m52 in Hb4.
  split; [exact Hf4|]. split; [congruence|].
  lra.
Qed.

(** ** From the specification side to primitive doubles *)

Lemma Prim2SF_M_PI : Prim2SF M_PI = SF_PI.
Proof. reflexivity. Qed.

Lemma Prim2SF_180 : Prim2SF 180%float = SF_180.
Proof. reflexivity. Qed.

Lemma Rabs_SF2R x : Rabs (SF2R x) = SFmag x.
Proof.
  rewrite SF2R_sign_mag. pose proof (SFmag_nonneg x).
  destruct (SFsign x); [rewrite Rabs_Ropp|]; now apply Rabs_pos_eq.
Qed.

Lemma SF2R_diff_same_sign x y :
  SFsign x = SFsign y ->
  Rabs (SF2R x - SF2R y) = Rabs (SFmag x - SFmag y).
Proof.
  intros Hs. rewrite !SF2R_sign_mag, Hs. destruct (SFsign y); [|reflexivity].
  replace (- SFmag x - - SFmag y)%R with (- (SFmag x - SFmag y))%R by ring.
  apply Rabs_Ropp.
Qed.

Lemma Prim2SF_deg2rad x :
  Prim2SF (deg2rad x) = SFdiv prec emax (SFmul prec emax (Prim2SF x) SF_PI) SF_180.
Proof.
  unfold deg2rad. now rewrite div_spec, mul_spec, Prim2SF_M_PI, Prim2SF_180.
Qed.

Lemma Prim2SF_rad2deg x :
  Prim2SF (rad2deg x) = SFdiv prec emax (SFmul prec emax (Prim2SF x) SF_180) SF_PI.
Proof.
  unfold rad2deg. now rewrite div_spec, mul_spec, Prim2SF_M_PI, Prim2SF_180.
Qed.

(** Degrees to radians and back on doubles of magnitude at most 100000:
    the result is finite and within [1e-9] of the start. *)
Lemma roundtrip_drift (x : float) :
  finite x = true ->
  (Rabs (F2R x) <= 100000)%R ->
  finite (rad2deg (deg2rad x)) = true /\
  (Rabs (F2R (rad2deg (deg2rad x)) - F2R x) <= 1 / 1000000000)%R.
Proof.
  unfold finite, F2R. intros Hfin Hx. rewrite Rabs_SF2R in Hx.
  rewrite Prim2SF_rad2deg, Prim2SF_deg2rad.
  destruct (SF_roundtrip (Prim2SF x) Hfin Hx) as (Hf & Hs & Hb).
  split; [exact Hf|].
  rewrite (SF2R_diff_same_sign _ _ Hs). now apply Rabs_le.
Qed.

(** Accuracy of the conversion to radians against the real product. *)
Lemma deg2rad_accuracy (x : float) :
  finite x = true ->
  (Rabs (F2R x) <= 1000000000)%R ->
  finite (deg2rad x) = true /\
  (Rabs (F2R (deg2rad x) - F2R x * F2R M_PI / 180)
   <= 19 * bpow (-52) * Rabs (F2R x * F2R M_PI / 180) + 10 * eta)%R.
Proof.
  unfold finite, F2R. intros Hfin Hx. rewrite Rabs_SF2R in Hx.
  rewrite Prim2SF_deg2rad, Prim2SF_M_PI.
  set (sx := Prim2SF x) in *.
  pose proof (SFmag_nonneg sx) as Hx0.
  pose proof eta_pos as He. pose proof eta_le as He'.
  destruct (SFmul_const sx 7074237752028440 (-51) Hfin ltac:(lia))
    as (Hf1 & Hs1 & Hb1).
  { fold SF_PI. rewrite SFmag_PI. lra. }
  fold SF_PI in *. set (a := SFmul prec emax sx SF_PI) in *.
  pose proof (SFmag_nonneg a) as Ha0.
  rewrite SFmag_PI, bpow_m52 in Hb1.
  destruct (SFdiv_const a 6333186975989760 (-45) Hf1) as (Hf2 & Hs2 & Hb2).
  { fold SF_180. rewrite SFmag_180. lra. }
  fold SF_180 in *. set (b := SFdiv prec emax a SF_180) in *.
  rewrite SFmag_180, bpow_m52 in Hb2.
  split; [exact Hf2|].
  assert (HPI : SF2R SF_PI = SFmag SF_PI) by (now rewrite SF2R_sign_mag).
  rewrite HPI, SFmag_PI, bpow_m52.
  rewrite (SF2R_sign_mag b), (SF2R_sign_mag sx), Hs2, Hs1.
  destruct (SFsign sx).
  - replace (- SFmag b - - SFmag sx * (7074237752028440 / 2251799813685248) / 180)%R
      with (- (SFmag b - SFmag sx * (7074237752028440 / 2251799813685248) / 180))%R
      by field.
    replace (- SFmag sx * (7074237752028440 / 2251799813685248) / 180)%R
      with (- (SFmag sx * (7074237752028440 / 2251799813685248) / 180))%R
      by field.
    rewrite !Rabs_Ropp.
    rewrite (Rabs_pos_eq (SFmag sx * _ / 180)) by lra.
    apply Rabs_le. lra.
  - rewrite (Rabs_pos_eq (SFmag sx * _ / 180)) by lra.
    apply Rabs_le. lra.
Qed.

(** ** Evaluating the real value of a concrete double *)

Lemma SF2R_eval_neg s m p :
  SF2R (S754_finite s m (Zneg p)) =
  (IZR (if s then Zneg m else Zpos m) / IZR (Z.pow_pos 2 p))%R.
Proof.
  cbn [SF2R]. fold (bpow (Zneg p)). rewrite bpow_Zneg. now destruct s.
Qed.

Lemma SF2R_eval_pos s m p :
  SF2R (S754_finite s m (Zpos p)) =
  (IZR (if s then Zneg m else Zpos m) * IZR (Z.pow_pos 2 p))%R.
Proof.
  cbn [SF2R]. fold (bpow (Zpos p)). rewrite bpow_Zpos. now destruct s.
Qed.

Lemma SF2R_eval_0 s m :
  SF2R (S754_finite s m 0) = IZR (if s then Zneg m else Zpos m).
Proof.
  cbn [SF2R]. change (powerRZ 2 0) with 1%R. rewrite Rmult_1_r.
  now destruct s.
Qed.

Ltac F2R_eval :=
  repeat match goal with
  | |- context [F2R ?x] =>
      let v := eval vm_compute in (Prim2SF x) in
      change (F2R x) with (SF2R v)
  end;
  rewrite ?SF2R_eval_neg, ?SF2R_eval_pos, ?SF2R_eval_0;
  repeat match goal with
  | |- context [Z.pow_pos 2 ?p] =>
      let k := eval vm_compute in (Z.pow_pos 2 p) in
      change (Z.pow_pos 2 p) with k
  end;
  cbn [SF2R].

End Rounding.

Import Rounding.

(** * The claims *)

(** C1: the height goes through the function untouched in both directions.
    If, at the coordinate this call hands to the engine, the forward
    transformation returns a finite height within [tol] of the height it
    was given plus the undulation [N] at the longitude and latitude it was
    given (in radians), then a successful call writes a finite output
    height within the same [tol] of the input orthometric height plus [N]
    at the input position converted to radians.  The function adds no
    error of its own to the height. *)
Theorem height_plus_undulation {E} (N : float -> float -> R) (tol : R)
    (input output : Z) (w : World E) (i : EPSG9705) (w' : World E) :
  read_EPSG9705 (heap w) input = Some i ->
  (let c := c_in_of i in
   let c' := fst (trans_result w i) in
   finite (z (lpzt c')) = true /\
   (Rabs (F2R (z (lpzt c')) -
          (F2R (z (lpzt c)) + N (lam (lpzt c)) (phi (lpzt c)))) <= tol)%R) ->
  epsg4979_from_epsg9705 input output w = Some (0, w') ->
  exists o : EPSG4979,
    read_EPSG4979 (heap w') output = Some o /\
    finite (alt4979 o) = true /\
    (Rabs (F2R (alt4979 o) -
           (F2R (alt9705 i) +
            N (lon9705 i * M_PI / 180)%float (lat9705 i * M_PI / 180)%float))
     <= tol)%R.
Proof.
  intros Hread Heng Hrun. apply run_path in Hrun.
  inversion Hrun as
    [ | | |
    | ctx s1 P s2 j c_out s3 _ _ Hc Hctx HP HP0 Hr Ht He Hv Hw ].
  rewrite Hread in Hr. injection Hr as <-.
  destruct (trans_result_eq w ctx s1 P s2 i c_out s3 Hc HP Ht) as [Et _].
  rewrite Et in Heng. simpl in Heng.
  exists (output_of c_out). split; [apply read_write_EPSG4979|].
  exact Heng.
Qed.

(** At the example point, with an undulation of -32.75 m and a tolerance
    of one millimetre. *)
Lemma height_plus_undulation_witness :
  exists w' o,
    epsg4979_from_epsg9705 64 128 w_liberty = Some (0, w') /\
    read_EPSG4979 (heap w') 128 = Some o /\
    finite (alt4979 o) = true /\
    (Rabs (F2R (alt4979 o) - (F2R (alt9705 liberty) + - (3275 / 100)))
     <= 1 / 1000)%R.
Proof.
  destruct (epsg4979_from_epsg9705 64 128 w_liberty) as [[r w']|] eqn:H;
    [|vm_compute in H; discriminate].
  assert (Hr : r = 0).
  { pose proof H as H'. vm_compute in H'. now injection H' as <- _. }
  subst r.
  destruct (height_plus_undulation (fun _ _ => (- (3275 / 100))%R) (1 / 1000)
              64 128 w_liberty liberty w') as (o & Ho & Hf & Hb);
    [reflexivity | | exact H |].
  - split; [vm_compute; reflexivity|].
    F2R_eval. apply Rabs_le. lra.
  - exists w', o. auto.
Defined.

(** C2: called with pointers a caller may pass (NULL, or the address of a
    struct), the function returns, and its status is 0 or the code of an
    error kind, distinct kinds having distinct codes: -1 iff a pointer is
    NULL; -2 iff context creation returns NULL; -3 iff the context exists
    and the EPSG:9705 -> EPSG:4979 transformation is not resolved; -4 iff
    the transformation was applied and the engine's error indicator is
    not 0 afterwards; 0 iff it is 0, and then the output struct holds the
    three converted components of the engine's result. *)
Theorem status_code_taxonomy {E} (input output : Z) (w : World E) :
  ptr_ok (heap w) input -> ptr_ok (heap w) output ->
  exists r w',
    epsg4979_from_epsg9705 input output w = Some (r, w') /\
    (r = 0 \/ exists k, r = status_of k) /\
    (forall k k', status_of k = status_of k' -> k = k') /\
    (r = status_of InvalidArgument <-> input = 0 \/ output = 0) /\
    (r = status_of ContextCreationError <->
       input <> 0 /\ output <> 0 /\ fst (ctx_result w) = 0) /\
    (r = status_of TransformationResolutionError <->
       input <> 0 /\ output <> 0 /\ fst (ctx_result w) <> 0 /\
       fst (pj_result w) = 0) /\
    (r = status_of TransformationApplyError <->
       input <> 0 /\ output <> 0 /\ fst (ctx_result w) <> 0 /\
       fst (pj_result w) <> 0 /\
       exists i, read_EPSG9705 (heap w) input = Some i /\
                 errno_result w i <> 0) /\
    (r = 0 <->
       input <> 0 /\ output <> 0 /\ fst (ctx_result w) <> 0 /\
       fst (pj_result w) <> 0 /\
       exists i, read_EPSG9705 (heap w) input = Some i /\
                 errno_result w i = 0) /\
    (r = 0 ->
       exists i, read_EPSG9705 (heap w) input = Some i /\
                 read_EPSG4979 (heap w') output =
                   Some (output_of (fst (trans_result w i)))).
Proof.
  intros Hin Hout.
  destruct (run_total input output w Hin Hout) as (r & w' & Hrun).
  exists r, w'. split; [exact Hrun|].
  apply run_path in Hrun.
  destruct Hrun as
    [ Hnull
    | s1 Hi Ho Hc
    | ctx s1 s2 Hi Ho Hc Hctx HP
    | ctx s1 P s2 i c_out s3 Hi Ho Hc Hctx HP HP0 Hr Ht He
    | ctx s1 P s2 i c_out s3 Hi Ho Hc Hctx HP HP0 Hr Ht He Hv ];
    answers.
  - split; [right; now exists InvalidArgument|].
    split; [exact status_of_inj|].
    repeat split; intros; try discriminate; try tauto; try lia.
  - split; [right; now exists ContextCreationError|].
    split; [exact status_of_inj|].
    repeat split; intros; try discriminate; try tauto; try lia.
  - split; [right; now exists TransformationResolutionError|].
    split; [exact status_of_inj|].
    repeat split; intros; try discriminate; try tauto; try lia.
  - split; [right; now exists TransformationApplyError|].
    split; [exact status_of_inj|].
    repeat split; intros; try discriminate; try tauto; try lia.
    + exists i. split; [exact Hr|]. answers. exact He.
    + exfalso. destruct H as (_ & _ & _ & _ & j & Hj & Hej).
      rewrite Hr in Hj. injection Hj as <-. revert Hej. answers. exact He.
  - split; [now left|].
    split; [exact status_of_inj|].
    repeat split; intros; try discriminate; try tauto; try lia.
    + exfalso. destruct H as (_ & _ & _ & _ & j & Hj & Hej).
      rewrite Hr in Hj. injection Hj as <-. revert Hej. answers.
      intros Hej. now apply Hej.
    + exists i. split; [exact Hr|]. answers. exact He.
    + exists i. split; [exact Hr|]. answers. simpl.
      apply read_write_EPSG4979.
Qed.

(** The example point, with both pointers valid. *)
Lemma status_code_taxonomy_witness :
  exists r w',
    epsg4979_from_epsg9705 64 128 w_liberty = Some (r, w') /\
    (r = 0 \/ exists k, r = status_of k).
Proof.
  destruct (status_code_taxonomy 64 128 w_liberty) as (r & w' & H1 & H2 & _).
  - right. repeat split; eexists; reflexivity.
  - right. repeat split; eexists; reflexivity.
  - exists r, w'. split; assumption.
Defined.

(** The two acquisition failures, on engines that refuse the context and
    the transformation: the output struct still holds its prior zeros. *)
Example context_creation_fails :
  run_output 64 128 (world_of (toy_engine 0 2000 N_const) 0 liberty) =
  Some (-2, Some (mkEPSG4979 0%float 0%float 0%float)).
Proof. vm_compute. reflexivity. Qed.

Example resolution_fails :
  run_output 64 128 (world_of (toy_engine 1000 0 N_const) 0 liberty) =
  Some (-3, Some (mkEPSG4979 0%float 0%float 0%float)).
Proof. vm_compute. reflexivity. Qed.

(** C3: a call that returns a non-zero status performs no store and leaves
    the heap as it was; a call that returns 0 performs exactly three
    stores, one to each field of the output struct, which then reads back
    as a complete value. *)
Theorem output_atomic {E} (input output : Z) (w : World E) (r : Z) (w' : World E) :
  epsg4979_from_epsg9705 input output w = Some (r, w') ->
  (r <> 0 ->
     heap w' = heap w /\ stores (new_events w w') = []) /\
  (r = 0 ->
     exists v : EPSG4979,
       read_EPSG4979 (heap w') output = Some v /\
       stores (new_events w w') =
         [Store (output + off_lat) (lat4979 v);
          Store (output + off_lon) (lon4979 v);
          Store (output + off_alt) (alt4979 v)]).
Proof.
  intros Hrun. apply run_path in Hrun.
  destruct Hrun; new_evs.
  - split; [|discriminate]. intros _. split; [reflexivity|].
    unfold new_events. now rewrite skipn_all.
  - split; [|discriminate]. now intros _.
  - split; [|discriminate]. now intros _.
  - split; [|discriminate]. now intros _.
  - split; [intros Hn; now contradiction Hn|]. intros _.
    exists (output_of c_out). split; [apply read_write_EPSG4979|reflexivity].
Qed.

(** The example point: the call succeeds and the three fields are written. *)
Lemma output_atomic_witness :
  exists r w',
    epsg4979_from_epsg9705 64 128 w_liberty = Some (r, w') /\
    (r <> 0 -> heap w' = heap w_liberty /\ stores (new_events w_liberty w') = []) /\
    (r = 0 ->
     exists v : EPSG4979,
       read_EPSG4979 (heap w') 128 = Some v /\
       stores (new_events w_liberty w') =
         [Store (128 + off_lat) (lat4979 v);
          Store (128 + off_lon) (lon4979 v);
          Store (128 + off_alt) (alt4979 v)]).
Proof.
  destruct (epsg4979_from_epsg9705 64 128 w_liberty) as [[r w']|] eqn:H.
  - exists r, w'. split; [reflexivity|].
    exact (output_atomic 64 128 w_liberty r w' H).
  - vm_compute in H. discriminate.
Defined.

(** C4: when the input pointer or the output pointer is NULL the function
    returns -1 and leaves the world as it found it: no load or store (the
    missing pointer is not dereferenced), no call into the engine (no
    context or transformation is acquired), heap and engine state
    unchanged.  This holds whatever the heap maps. *)
Theorem null_pointer_rejected {E} (input output : Z) (w : World E) :
  input = 0 \/ output = 0 ->
  epsg4979_from_epsg9705 input output w = Some (status_of InvalidArgument, w).
Proof. intros H. apply path_run, path_null, H. Qed.

(** A NULL input pointer next to a valid output pointer. *)
Lemma null_pointer_rejected_witness :
  epsg4979_from_epsg9705 0 128 w_liberty = Some (-1, w_liberty).
Proof. apply (null_pointer_rejected 0 128 w_liberty). left. reflexivity. Defined.

(** C5: the coordinate passed to the forward transformation carries the
    input longitude and latitude each multiplied by [M_PI] and divided by
    [180.0], and the input height as loaded; on success the output struct
    holds the engine's two angular components each multiplied by [180.0]
    and divided by [M_PI], and the engine's height as returned.  Each
    conversion is exactly one binary64 multiplication followed by one
    binary64 division as IEEE 754 specifies them, and for a finite angle
    of magnitude up to 1e9 degrees the radians differ from the real
    product [x * M_PI / 180] by at most [19 * 2^-52] of it plus
    [10 * 2^-1074]. *)
Theorem angular_unit_handling {E} (input output : Z) (w : World E) (r : Z)
    (w' : World E) :
  epsg4979_from_epsg9705 input output w = Some (r, w') ->
  (forall P c c', In (Call_trans P PJ_FWD c c') (new_events w w') ->
     exists i, read_EPSG9705 (heap w) input = Some i /\
       lam (lpzt c) = (lon9705 i * M_PI / 180)%float /\
       phi (lpzt c) = (lat9705 i * M_PI / 180)%float /\
       z (lpzt c) = alt9705 i /\
       (r = 0 ->
          read_EPSG4979 (heap w') output =
            Some (mkEPSG4979 (phi (lpzt c') * 180 / M_PI)%float
                             (lam (lpzt c') * 180 / M_PI)%float
                             (z (lpzt c'))))) /\
  (r = 0 -> exists P c c', In (Call_trans P PJ_FWD c c') (new_events w w')) /\
  (forall x : float,
     Prim2SF (x * M_PI / 180)%float =
       SF64div (SF64mul (Prim2SF x) (Prim2SF M_PI)) (Prim2SF 180%float) /\
     Prim2SF (x * 180 / M_PI)%float =
       SF64div (SF64mul (Prim2SF x) (Prim2SF 180%float)) (Prim2SF M_PI)) /\
  (forall x : float,
     finite x = true -> (Rabs (F2R x) <= 1000000000)%R ->
     finite (x * M_PI / 180)%float = true /\
     (Rabs (F2R (x * M_PI / 180)%float - F2R x * F2R M_PI / 180)
      <= 19 * bpow (-52) * Rabs (F2R x * F2R M_PI / 180) + 10 * eta)%R).
Proof.
  intros Hrun. apply run_path in Hrun.
  split; [|split; [|split]].
  - destruct Hrun; new_evs; rewrite ?new_events_refl; simpl;
      intros Q c c' Hin;
      repeat (destruct Hin as [Hin|Hin];
              [try discriminate Hin; inversion Hin; subst|]);
      try contradiction.
    + exists i. repeat split; try assumption. discriminate.
    + exists i. repeat split; try assumption. intros _.
      apply read_write_EPSG4979.
  - intros ->. inversion Hrun; subst. new_evs.
    eexists _, _, _. simpl. do 5 right. left. reflexivity.
  - intros x. now rewrite !div_spec, !mul_spec.
  - intros x Hf Hx. exact (deg2rad_accuracy x Hf Hx).
Qed.

(** The coordinate the engine receives for the example point. *)
Lemma angular_unit_handling_witness :
  exists r w' P c c',
    epsg4979_from_epsg9705 64 128 w_liberty = Some (r, w') /\
    In (Call_trans P PJ_FWD c c') (new_events w_liberty w') /\
    lam (lpzt c) = (lon9705 liberty * M_PI / 180)%float /\
    phi (lpzt c) = (lat9705 liberty * M_PI / 180)%float /\
    z (lpzt c) = alt9705 liberty.
Proof.
  destruct (epsg4979_from_epsg9705 64 128 w_liberty) as [[r w']|] eqn:H;
    [|vm_compute in H; discriminate].
  assert (Hr : r = 0).
  { pose proof H as H'. vm_compute in H'. now injection H' as <- _. }
  destruct (angular_unit_handling 64 128 w_liberty r w' H)
    as (Hconv & Hex & _).
  destruct (Hex Hr) as (P & c & c' & Hin).
  destruct (Hconv P c c' Hin) as (i & Hi & Hlam & Hphi & Hz & _).
  assert (i = liberty) by (vm_compute in Hi; now injection Hi as <-).
  subst i. exists r, w', P, c, c'. auto.
Defined.

(** C6: every coordinate a call passes to the forward transformation is
    [proj_coord lon_rad lat_rad alt 0]: longitude first, then latitude,
    both converted to radians, then the height as loaded, and a fourth
    slot that is exactly 0.  A call that ends with status 0 or -4 passes
    exactly one such coordinate. *)
Theorem coordinate_order {E} (input output : Z) (w : World E) (r : Z)
    (w' : World E) :
  epsg4979_from_epsg9705 input output w = Some (r, w') ->
  (forall c, In c (trans_inputs (new_events w w')) ->
     exists i, read_EPSG9705 (heap w) input = Some i /\
       c = proj_coord (lon9705 i * M_PI / 180)%float
                      (lat9705 i * M_PI / 180)%float
                      (alt9705 i) 0%float) /\
  (r = 0 \/ r = -4 ->
     exists i, read_EPSG9705 (heap w) input = Some i /\
       trans_inputs (new_events w w') =
         [proj_coord (lon9705 i * M_PI / 180)%float
                     (lat9705 i * M_PI / 180)%float
                     (alt9705 i) 0%float]).
Proof.
  intros Hrun. apply run_path in Hrun.
  destruct Hrun; new_evs; rewrite ?new_events_refl; simpl.
  - split; [intros c []|]. intros [|]; discriminate.
  - split; [intros c []|]. intros [|]; discriminate.
  - split; [intros c []|]. intros [|]; discriminate.
  - split.
    + intros c [<-|[]]. now exists i.
    + intros _. now exists i.
  - split.
    + intros c [<-|[]]. now exists i.
    + intros _. now exists i.
Qed.

(** The one coordinate passed for the example point. *)
Lemma coordinate_order_witness :
  exists r w',
    epsg4979_from_epsg9705 64 128 w_liberty = Some (r, w') /\
    trans_inputs (new_events w_liberty w') =
      [proj_coord (lon9705 liberty * M_PI / 180)%float
                  (lat9705 liberty * M_PI / 180)%float
                  (alt9705 liberty) 0%float].
Proof.
  destruct (epsg4979_from_epsg9705 64 128 w_liberty) as [[r w']|] eqn:H.
  - exists r, w'. split; [reflexivity|].
    destruct (coordinate_order 64 128 w_liberty r w' H) as [_ Hc].
    destruct Hc as (i & Hi & ->).
    + left. vm_compute in H. congruence.
    + vm_compute in Hi. injection Hi as <-. reflexivity.
  - vm_compute in H. discriminate.
Defined.

(** C7, amended: for an input whose latitude is finite and within
    [-90, 90] and whose longitude is finite and of magnitude at most
    100000 degrees, if the engine returns the two angular components it
    was given (the transformation is vertical-only), a successful call
    writes a finite output latitude and longitude, each within [1e-9]
    degrees of the input. *)
Theorem horizontal_identity {E} (input output : Z) (w : World E)
    (i : EPSG9705) (w' : World E) :
  read_EPSG9705 (heap w) input = Some i ->
  lam (lpzt (fst (trans_result w i))) = lam (lpzt (c_in_of i)) ->
  phi (lpzt (fst (trans_result w i))) = phi (lpzt (c_in_of i)) ->
  finite (lat9705 i) = true -> (Rabs (F2R (lat9705 i)) <= 90)%R ->
  finite (lon9705 i) = true -> (Rabs (F2R (lon9705 i)) <= 100000)%R ->
  epsg4979_from_epsg9705 input output w = Some (0, w') ->
  exists o : EPSG4979,
    read_EPSG4979 (heap w') output = Some o /\
    finite (lat4979 o) = true /\ finite (lon4979 o) = true /\
    (Rabs (F2R (lat4979 o) - F2R (lat9705 i)) <= 1 / 1000000000)%R /\
    (Rabs (F2R (lon4979 o) - F2R (lon9705 i)) <= 1 / 1000000000)%R.
Proof.
  intros Hread Hlam Hphi Hflat Hlat Hflon Hlon Hrun.
  apply run_path in Hrun.
  inversion Hrun as
    [ | | |
    | ctx s1 P s2 j c_out s3 _ _ Hc Hctx HP HP0 Hr Ht He Hv Hw ].
  rewrite Hread in Hr. injection Hr as <-.
  destruct (trans_result_eq w ctx s1 P s2 i c_out s3 Hc HP Ht) as [Et _].
  rewrite Et in Hlam, Hphi. cbn [fst] in Hlam, Hphi.
  exists (output_of c_out). split; [apply read_write_EPSG4979|].
  unfold output_of. cbn [lat4979 lon4979].
  rewrite Hlam, Hphi. unfold c_in_of, proj_coord. cbn [lpzt lam phi].
  assert (Hlat' : (Rabs (F2R (lat9705 i)) <= 100000)%R) by lra.
  destruct (roundtrip_drift (lat9705 i) Hflat Hlat') as [F1 B1].
  destruct (roundtrip_drift (lon9705 i) Hflon Hlon) as [F2 B2].
  auto.
Qed.

(** The end-to-end example: latitude 40.6892, longitude -74.0445. *)
Lemma horizontal_identity_witness :
  exists w' o,
    epsg4979_from_epsg9705 64 128 w_liberty = Some (0, w') /\
    read_EPSG4979 (heap w') 128 = Some o /\
    (Rabs (F2R (lat4979 o) - F2R (lat9705 liberty)) <= 1 / 1000000000)%R /\
    (Rabs (F2R (lon4979 o) - F2R (lon9705 liberty)) <= 1 / 1000000000)%R.
Proof.
  destruct (epsg4979_from_epsg9705 64 128 w_liberty) as [[r w']|] eqn:H;
    [|vm_compute in H; discriminate].
  assert (Hr : r = 0).
  { pose proof H as H'. vm_compute in H'. now injection H' as <- _. }
  subst r.
  destruct (horizontal_identity 64 128 w_liberty liberty w')
    as (o & Ho & _ & _ & Hlat & Hlon);
    [ reflexivity | reflexivity | reflexivity
    | reflexivity | | reflexivity | | exact H | ].
  - F2R_eval. apply Rabs_le. lra.
  - F2R_eval. apply Rabs_le. lra.
  - exists w', o. auto.
Defined.

(** The round trip at one longitude far outside the conventional range. *)
Example far_output :
  run_output 64 128 w_far =
  Some (0, Some (mkEPSG4979 0%float 10000000000000002%float (-32.75)%float)).
Proof. vm_compute. reflexivity. Qed.

(** C7 as stated fails: the interface leaves the longitude unrestricted,
    and at a latitude of 0 and a longitude of [1e16] degrees a
    vertical-only engine makes the call succeed with an output longitude
    2 degrees away from the input. *)
Lemma drift_at_large_longitude :
  exists w' o,
    epsg4979_from_epsg9705 64 128 w_far = Some (0, w') /\
    read_EPSG4979 (heap w') 128 = Some o /\
    lam (lpzt (fst (trans_result w_far far))) = lam (lpzt (c_in_of far)) /\
    phi (lpzt (fst (trans_result w_far far))) = phi (lpzt (c_in_of far)) /\
    finite (lat9705 far) = true /\ (Rabs (F2R (lat9705 far)) <= 90)%R /\
    finite (lon9705 far) = true /\ finite (alt9705 far) = true /\
    (1 / 1000000000 < Rabs (F2R (lon4979 o) - F2R (lon9705 far)))%R.
Proof.
  pose proof far_output as Hout. unfold run_output in Hout.
  destruct (epsg4979_from_epsg9705 64 128 w_far) as [[r w']|] eqn:H;
    [|discriminate].
  injection Hout as -> Ho.
  exists w', (mkEPSG4979 0%float 10000000000000002%float (-32.75)%float).
  repeat split; try reflexivity; try assumption.
  - F2R_eval. rewrite Rabs_R0. lra.
  - cbn [lon4979 lon9705 far]. F2R_eval.
    unfold Rabs. destruct Rcase_abs; lra.
Qed.

(** C8: the events of any call, run through the resource protocol from no
    live resource, end with no live resource and break no rule of the
    protocol (no use after release, no double release, the context is
    released after the transformation bound to it).  On the resolution
    failure path the context created is destroyed; on the apply-failure
    and success paths the transformation and then the context are
    destroyed, as the last two events. *)
Theorem resources_balanced {E} (input output : Z) (w : World E) (r : Z)
    (w' : World E) :
  epsg4979_from_epsg9705 input output w = Some (r, w') ->
  res_run no_resources (new_events w w') = Some no_resources /\
  (r = -3 ->
     exists ctx, ctx <> 0 /\
       new_events w w' =
         [Call_context_create ctx;
          Call_create_crs_to_crs ctx "EPSG:9705" "EPSG:4979" 0 0;
          Call_context_destroy ctx]) /\
  (r = -4 \/ r = 0 ->
     exists ctx P mid, ctx <> 0 /\ P <> 0 /\
       new_events w w' =
         [Call_context_create ctx;
          Call_create_crs_to_crs ctx "EPSG:9705" "EPSG:4979" 0 P] ++
         mid ++ [Call_destroy P; Call_context_destroy ctx] /\
       forallb (fun e => negb (is_engine_call e) ||
                         match e with
                         | Call_trans _ _ _ _ | Call_errno _ _ => true
                         | _ => false
                         end) mid = true).
Proof.
  intros Hrun. apply run_path in Hrun.
  destruct Hrun as
    [ Hnull
    | s1 Hi Ho Hc
    | ctx s1 s2 Hi Ho Hc Hctx HP
    | ctx s1 P s2 i c_out s3 Hi Ho Hc Hctx HP HP0 Hr Ht He
    | ctx s1 P s2 i c_out s3 Hi Ho Hc Hctx HP HP0 Hr Ht He Hv ];
    new_evs; rewrite ?new_events_refl.
  - repeat split; try discriminate. intros [|]; discriminate.
  - repeat split; try discriminate. intros [|]; discriminate.
  - split; [|split].
    + apply Z.eqb_neq in Hctx. res_solve.
    + intros _. now exists ctx.
    + intros [|]; discriminate.
  - split; [|split].
    + apply Z.eqb_neq in Hctx, HP0. res_solve.
    + discriminate.
    + intros _. exists ctx, P. eexists. repeat split; try assumption.
      * simpl. do 2 f_equal.
        instantiate (1 := [_; _; _; _; _]). reflexivity.
      * reflexivity.
  - split; [|split].
    + apply Z.eqb_neq in Hctx, HP0. res_solve.
    + discriminate.
    + intros _. exists ctx, P. eexists. repeat split; try assumption.
      * simpl. do 2 f_equal.
        instantiate (1 := [_; _; _; _; _; _; _; _]). reflexivity.
      * reflexivity.
Qed.

(** The successful call at the example point leaves nothing live. *)
Lemma resources_balanced_witness :
  exists r w',
    epsg4979_from_epsg9705 64 128 w_liberty = Some (r, w') /\
    res_run no_resources (new_events w_liberty w') = Some no_resources.
Proof.
  destruct (epsg4979_from_epsg9705 64 128 w_liberty) as [[r w']|] eqn:H.
  - exists r, w'. split; [reflexivity|].
    exact (proj1 (resources_balanced 64 128 w_liberty r w' H)).
  - vm_compute in H. discriminate.
Defined.

(** C9: with non-NULL pointers, whatever three doubles the input struct
    holds (no range or finiteness condition on them), the status is never
    -1; statuses -2 and -3 are decided by the engine before the input is
    read; and once context and transformation exist, the triple is
    converted and passed to the engine as it is, and the status is -4 or
    0 according to the engine's error indicator alone. *)
Theorem input_values_not_validated {E} (input output : Z) (w : World E)
    (i : EPSG9705) (r : Z) (w' : World E) :
  input <> 0 -> output <> 0 ->
  read_EPSG9705 (heap w) input = Some i ->
  epsg4979_from_epsg9705 input output w = Some (r, w') ->
  r <> status_of InvalidArgument /\
  (fst (ctx_result w) = 0 -> r = status_of ContextCreationError) /\
  (fst (ctx_result w) <> 0 -> fst (pj_result w) = 0 ->
     r = status_of TransformationResolutionError) /\
  (fst (ctx_result w) <> 0 -> fst (pj_result w) <> 0 ->
     trans_inputs (new_events w w') =
       [proj_coord (lon9705 i * M_PI / 180)%float
                   (lat9705 i * M_PI / 180)%float (alt9705 i) 0%float] /\
     (errno_result w i <> 0 -> r = status_of TransformationApplyError) /\
     (errno_result w i = 0 ->
        r = 0 /\
        read_EPSG4979 (heap w') output =
          Some (output_of (fst (trans_result w i))))).
Proof.
  intros Hi Ho Hread Hrun. apply run_path in Hrun.
  destruct Hrun as
    [ Hnull
    | s1 _ _ Hc
    | ctx s1 s2 _ _ Hc Hctx HP
    | ctx s1 P s2 j c_out s3 _ _ Hc Hctx HP HP0 Hr Ht He
    | ctx s1 P s2 j c_out s3 _ _ Hc Hctx HP HP0 Hr Ht He Hv ];
    new_evs; rewrite ?new_events_refl;
    try (rewrite Hread in Hr; injection Hr as <-); answers; simpl.
  - tauto.
  - repeat split; try discriminate; try tauto.
  - repeat split; try discriminate; try tauto.
  - repeat split; try discriminate; try tauto.
  - repeat split; try discriminate; try tauto.
    apply read_write_EPSG4979.
Qed.

(** A latitude of 1000 degrees and a longitude of -100000 degrees are
    converted, passed on and transformed with status 0. *)
Lemma input_values_not_validated_witness :
  exists r w',
    epsg4979_from_epsg9705 64 128 w_wild = Some (r, w') /\
    r = 0 /\
    trans_inputs (new_events w_wild w') =
       [proj_coord (lon9705 wild * M_PI / 180)%float
                   (lat9705 wild * M_PI / 180)%float (alt9705 wild) 0%float] /\
    read_EPSG4979 (heap w') 128 =
      Some (output_of (fst (trans_result w_wild wild))).
Proof.
  destruct (epsg4979_from_epsg9705 64 128 w_wild) as [[r w']|] eqn:H.
  - exists r, w'. split; [reflexivity|].
    destruct (input_values_not_validated 64 128 w_wild wild r w')
      as (_ & _ & _ & Hok); [lia | lia | reflexivity | exact H |].
    destruct Hok as (Hc & _ & Hz); [vm_compute; lia | vm_compute; lia |].
    destruct Hz as [Hr Hout]; [reflexivity|]. auto.
  - vm_compute in H. discriminate.
Defined.

(** A triple with NaN fields is forwarded too; the sample engine then
    raises its error indicator. *)
Example nan_forwarded :
  exists w', epsg4979_from_epsg9705 64 128 w_nan = Some (-4, w') /\
    trans_inputs (new_events w_nan w') = [proj_coord infinity nan nan 0%float].
Proof. eexists. split; vm_compute; reflexivity. Qed.

(** C10: two calls on the same engine state whose input structs hold the
    same triple return the same status and leave the same engine state,
    wherever the structs live and whatever else the heaps hold; when the
    status is 0 the two output structs hold equal values.  Every store of
    a call goes to a field of its output struct, every other address
    keeps its value, and an input struct that does not overlap the output
    struct reads back unchanged. *)
Theorem deterministic_in_input_triple {E}
    (in1 out1 in2 out2 : Z) (w1 w2 : World E) (i : EPSG9705)
    (r1 r2 : Z) (w1' w2' : World E) :
  in1 <> 0 -> out1 <> 0 -> in2 <> 0 -> out2 <> 0 ->
  eng w1 = eng w2 ->
  read_EPSG9705 (heap w1) in1 = Some i ->
  read_EPSG9705 (heap w2) in2 = Some i ->
  epsg4979_from_epsg9705 in1 out1 w1 = Some (r1, w1') ->
  epsg4979_from_epsg9705 in2 out2 w2 = Some (r2, w2') ->
  r1 = r2 /\
  eng w1' = eng w2' /\
  (r1 = 0 ->
     exists v, read_EPSG4979 (heap w1') out1 = Some v /\
               read_EPSG4979 (heap w2') out2 = Some v) /\
  (forall a v, In (Store a v) (new_events w1 w1') -> In a (fields_of out1)) /\
  (forall a, ~ In a (fields_of out1) -> heap w1' !! a = heap w1 !! a) /\
  ((forall a, In a (fields_of in1) -> ~ In a (fields_of out1)) ->
     read_EPSG9705 (heap w1') in1 = Some i).
Proof.
  intros Hi1 Ho1 Hi2 Ho2 Heng Hr1 Hr2 Hrun1 Hrun2.
  apply run_path in Hrun1, Hrun2.
  assert (Hframe : (forall a, ~ In a (fields_of out1) ->
                      heap w1' !! a = heap w1 !! a)).
  { destruct Hrun1; simpl; auto. intros a Ha.
    now apply write_EPSG4979_other. }
  assert (Hstores : forall a v, In (Store a v) (new_events w1 w1') ->
                      In a (fields_of out1)).
  { destruct Hrun1; new_evs; rewrite ?new_events_refl; simpl; intros a v Hin;
      repeat (destruct Hin as [Hin|Hin];
              [try discriminate Hin; inversion Hin; subst; simpl; tauto|]);
      contradiction. }
  assert (Hin_kept : (forall a, In a (fields_of in1) -> ~ In a (fields_of out1)) ->
                     read_EPSG9705 (heap w1') in1 = Some i).
  { intros Hdisj. rewrite <- Hr1. unfold read_EPSG9705.
    rewrite !Hframe; [reflexivity| | |]; apply Hdisj; simpl; tauto. }
  destruct Hrun1 as
    [ Hnull
    | s1 _ _ Hc
    | ctx s1 s2 _ _ Hc Hctx HP
    | ctx s1 P s2 j c_out s3 _ _ Hc Hctx HP HP0 Hr Ht He
    | ctx s1 P s2 j c_out s3 _ _ Hc Hctx HP HP0 Hr Ht He Hv ];
  [ tauto | | | | ];
  (destruct Hrun2 as
    [ Hnull'
    | s1' _ _ Hc'
    | ctx' s1' s2' _ _ Hc' Hctx' HP'
    | ctx' s1' P' s2' j' c_out' s3' _ _ Hc' Hctx' HP' HP0' Hr' Ht' He'
    | ctx' s1' P' s2' j' c_out' s3' _ _ Hc' Hctx' HP' HP0' Hr' Ht' He' Hv' ];
  [ tauto | | | | ]);
  rewrite <- Heng in Hc'; rewrite Hc in Hc';
  apply pair_equal_spec in Hc'; destruct Hc' as [Ec Es];
  try (symmetry in Ec; contradiction); try contradiction; subst;
  try (rewrite HP in HP'; apply pair_equal_spec in HP';
       destruct HP' as [Ep Es2]);
  try (symmetry in Ep; contradiction); try contradiction; subst;
  try (rewrite Hr1 in Hr; injection Hr as <-);
  try (rewrite Hr2 in Hr'; injection Hr' as <-);
  try (rewrite Ht in Ht'; apply pair_equal_spec in Ht';
       destruct Ht' as [Ec2 Es3]; subst);
  try contradiction; try (exfalso; congruence);
  simpl;
  (split; [reflexivity|]); (split; [reflexivity|]);
  (split; [|split; [exact Hstores|split; [exact Hframe|exact Hin_kept]]]);
  try discriminate.
  intros _. eexists. split; apply read_write_EPSG4979.
Qed.

(** The example triple at two different pairs of addresses, over different
    prior contents of the output struct. *)
Lemma deterministic_in_input_triple_witness :
  exists r1 w1' r2 w2',
    epsg4979_from_epsg9705 64 128 w_liberty = Some (r1, w1') /\
    epsg4979_from_epsg9705 1024 2048 w_liberty_moved = Some (r2, w2') /\
    r1 = r2 /\
    (r1 = 0 ->
     exists v, read_EPSG4979 (heap w1') 128 = Some v /\
               read_EPSG4979 (heap w2') 2048 = Some v) /\
    read_EPSG9705 (heap w1') 64 = Some liberty.
Proof.
  destruct (epsg4979_from_epsg9705 64 128 w_liberty) as [[r1 w1']|] eqn:H1;
    [|vm_compute in H1; discriminate].
  destruct (epsg4979_from_epsg9705 1024 2048 w_liberty_moved)
    as [[r2 w2']|] eqn:H2; [|vm_compute in H2; discriminate].
  exists r1, w1', r2, w2'. split; [reflexivity|]. split; [reflexivity|].
  destruct (deterministic_in_input_triple 64 128 1024 2048
              w_liberty w_liberty_moved liberty r1 r2 w1' w2')
    as (Hr & _ & Hv & _ & _ & Hin);
    [discriminate | discriminate | discriminate | discriminate
    | reflexivity | reflexivity | reflexivity | exact H1 | exact H2 |].
  split; [exact Hr|]. split; [exact Hv|].
  apply Hin. unfold fields_of, off_lat, off_lon, off_alt. simpl.
  intros a Ha Hb. lia.
Defined.

(** * Further properties of the function

    What the claims leave out of the same function: when it touches
    unmapped memory, the exact order of its memory accesses and of its
    calls into the engine, calls made in sequence, and the behaviour of
    the two unit conversions on signs, NaN, infinities and overflow. *)

Lemma valid_ptr_dec (h : gmap Z float) (p : Z) : valid_ptr h p \/ ~ valid_ptr h p.
Proof.
  unfold valid_ptr.
  destruct (h !! (p + off_lat)) as [a|]; [|right; intros ([? ?] & _); discriminate].
  destruct (h !! (p + off_lon)) as [b|]; [|right; intros (_ & [? ?] & _); discriminate].
  destruct (h !! (p + off_alt)) as [c|]; [|right; intros (_ & _ & [? ?]); discriminate].
  left. eauto.
Qed.

Lemma res_run_app (r : resources) (a b : list event) :
  res_run r (a ++ b) =
  match res_run r a with
  | Some r' => res_run r' b
  | None => None
  end.
Proof.
  revert r. induction a as [|e a IH]; intros r; simpl; [reflexivity|].
  destruct (res_step r e); [apply IH|reflexivity].
Qed.

(** One call, seen from a caller: its events extend the trace, leave no
    resource live, and hold one context creation unless a pointer is NULL. *)
Lemma call_summary {E} (input output : Z) (w : World E) (r : Z) (w' : World E) :
  epsg4979_from_epsg9705 input output w = Some (r, w') ->
  exists evs,
    trace w' = trace w ++ evs /\
    res_run no_resources evs = Some no_resources /\
    length (List.filter is_context_create evs) =
      length (non_null_calls [(input, output)]) /\
    (-4 <= r <= 0).
Proof.
  intros Hrun. apply run_path in Hrun.
  destruct Hrun as
    [ Hnull
    | s1 Hi Ho Hc
    | ctx s1 s2 Hi Ho Hc Hctx HP
    | ctx s1 P s2 i c_out s3 Hi Ho Hc Hctx HP HP0 Hr Ht He
    | ctx s1 P s2 i c_out s3 Hi Ho Hc Hctx HP HP0 Hr Ht He Hv ];
    unfold non_null_calls; cbn [List.filter fst snd];
    try (apply Z.eqb_neq in Hi, Ho; rewrite Hi, Ho; cbn [orb negb]).
  - exists []. rewrite app_nil_r.
    assert (Hn : (input =? 0) || (output =? 0) = true).
    { destruct Hnull as [-> | ->]; [reflexivity|apply orb_true_r]. }
    rewrite Hn. repeat split; try reflexivity; lia.
  - eexists. split; [reflexivity|]. repeat split; try reflexivity; lia.
  - eexists. split; [reflexivity|].
    apply Z.eqb_neq in Hctx. split; [res_solve|].
    repeat split; try reflexivity; lia.
  - eexists. split; [reflexivity|].
    apply Z.eqb_neq in Hctx, HP0. split; [res_solve|].
    repeat split; try reflexivity; lia.
  - eexists. split; [reflexivity|].
    apply Z.eqb_neq in Hctx, HP0. split; [res_solve|].
    repeat split; try reflexivity; lia.
Qed.

Lemma run_calls_trace {E} (calls : list (Z * Z)) :
  forall (w : World E) (rs : list Z) (w' : World E),
  run_calls calls w = Some (rs, w') -> exists evs, trace w' = trace w ++ evs.
Proof.
  induction calls as [|[i o] rest IH]; intros w rs w' H.
  - injection H as <- <-. exists []. now rewrite app_nil_r.
  - cbn [run_calls] in H. unfold bind at 1 in H.
    destruct (epsg4979_from_epsg9705 i o w) as [[r wa]|] eqn:Ha;
      [|discriminate].
    unfold bind at 1 in H.
    destruct (run_calls rest wa) as [[rb wb]|] eqn:Hb; [|discriminate].
    injection H as <- <-.
    destruct (call_summary _ _ _ _ _ Ha) as (ea & Hta & _).
    destruct (IH _ _ _ Hb) as (eb & Htb).
    exists (ea ++ eb). now rewrite Htb, Hta, app_assoc.
Qed.

(** ** More on the two conversions *)

Module Conversions.

(** ** Negation commutes with the two operations *)

Lemma binary_round_aux_negb s m e l :
  binary_round_aux prec emax (negb s) m e l =
  SFopp (binary_round_aux prec emax s m e l).
Proof.
  unfold binary_round_aux.
  destruct (shr_fexp prec emax m e l) as [mrs' e'].
  destruct (shr_fexp prec emax _ e' loc_Exact) as [mrs'' e''].
  destruct (shr_m mrs''); cbn [SFopp]; try reflexivity.
  destruct (IntDef.Z.leb e'' (IntDef.Z.sub emax prec)); reflexivity.
Qed.

Lemma SFmul_opp x mc ec :
  SFmul prec emax (SFopp x) (S754_finite false mc ec) =
  SFopp (SFmul prec emax x (S754_finite false mc ec)).
Proof.
  destruct x as [s|s| |s m e]; cbn [SFmul SFopp]; rewrite ?xorb_false_r;
    try reflexivity.
  apply binary_round_aux_negb.
Qed.

Lemma SFdiv_opp x mc ec :
  SFdiv prec emax (SFopp x) (S754_finite false mc ec) =
  SFopp (SFdiv prec emax x (S754_finite false mc ec)).
Proof.
  destruct x as [s|s| |s m e]; cbn [SFdiv SFopp]; rewrite ?xorb_false_r;
    try reflexivity.
  destruct (SFdiv_core_binary prec emax (Z.pos m) e (Z.pos mc) ec)
    as [[mz ez] lz].
  apply binary_round_aux_negb.
Qed.

Lemma deg2rad_opp (x : float) : deg2rad (- x) = (- deg2rad x)%float.
Proof.
  apply Prim2SF_inj.
  rewrite opp_spec, !Prim2SF_deg2rad, opp_spec.
  unfold SF_PI, SF_180. now rewrite SFmul_opp, SFdiv_opp.
Qed.

Lemma rad2deg_opp (x : float) : rad2deg (- x) = (- rad2deg x)%float.
Proof.
  apply Prim2SF_inj.
  rewrite opp_spec, !Prim2SF_rad2deg, opp_spec.
  unfold SF_PI, SF_180. now rewrite SFmul_opp, SFdiv_opp.
Qed.

(** ** Sign, NaN and the non-finite values *)

Lemma round_result_sign s mf ef :
  0 <= mf ->
  SFsign (round_result s mf ef) = s /\ round_result s mf ef <> S754_nan.
Proof.
  intros H. unfold round_result. destruct mf as [|m|m]; [| |lia].
  - split; [reflexivity|discriminate].
  - destruct (ef <=? emax - prec); split; try reflexivity; discriminate.
Qed.

Lemma binary_round_aux_sign s m e l v :
  0 <= m -> inb m l v ->
  SFsign (binary_round_aux prec emax s m e l) = s /\
  binary_round_aux prec emax s m e l <> S754_nan.
Proof.
  intros Hm Hv.
  destruct (binary_round_aux_spec s m e l v Hm Hv) as (mf & ef & Hmf & -> & _).
  now apply round_result_sign.
Qed.

Lemma SFmul_const_sign x mc ec :
  x <> S754_nan ->
  SFsign (SFmul prec emax x (S754_finite false mc ec)) = SFsign x /\
  SFmul prec emax x (S754_finite false mc ec) <> S754_nan.
Proof.
  intros Hx. destruct x as [s|s| |s m e]; cbn [SFmul SFsign];
    rewrite ?xorb_false_r; try (split; [reflexivity|discriminate]).
  - contradiction.
  - apply (binary_round_aux_sign s _ _ _ (IZR (Z.pos (m * mc)))); [lia|].
    reflexivity.
Qed.

Lemma SFdiv_const_sign x mc ec :
  x <> S754_nan ->
  SFsign (SFdiv prec emax x (S754_finite false mc ec)) = SFsign x /\
  SFdiv prec emax x (S754_finite false mc ec) <> S754_nan.
Proof.
  intros Hx. destruct x as [s|s| |s m e]; cbn [SFdiv SFsign];
    rewrite ?xorb_false_r; try (split; [reflexivity|discriminate]).
  - contradiction.
  - destruct (SFdiv_core_binary_spec m mc e ec)
      as (q & e' & l & -> & Hq & v & Hinb & _).
    now apply (binary_round_aux_sign s q e' l v).
Qed.

Lemma is_nan_Prim2SF (x : float) :
  PrimFloat.is_nan x = true <-> Prim2SF x = S754_nan.
Proof.
  unfold Prim2SF. destruct (PrimFloat.is_nan x); [tauto|].
  split; [discriminate|].
  destruct (is_zero x); [discriminate|].
  destruct (is_infinity x); [discriminate|].
  destruct (Z.frexp x) as [r e].
  destruct (shr_fexp prec emax _ _ loc_Exact) as [mrs e'].
  destruct (shr_m mrs); discriminate.
Qed.

Lemma is_nan_false_Prim2SF (x : float) :
  PrimFloat.is_nan x = false <-> Prim2SF x <> S754_nan.
Proof.
  rewrite <- is_nan_Prim2SF. destruct (PrimFloat.is_nan x); split; congruence.
Qed.

(** A conversion made of a product and a quotient by positive constants
    returns NaN exactly on NaN, keeps the sign of anything else, and
    returns a finite value only for a finite argument. *)
Lemma conv_nan_iff (f : float -> float) c1 e1 c2 e2 :
  (forall x, Prim2SF (f x) =
     SFdiv prec emax (SFmul prec emax (Prim2SF x) (S754_finite false c1 e1))
           (S754_finite false c2 e2)) ->
  forall x,
    PrimFloat.is_nan (f x) = PrimFloat.is_nan x /\
    (PrimFloat.is_nan x = false -> Fsign (f x) = Fsign x) /\
    (finite (f x) = true -> finite x = true).
Proof.
  intros Hf x. unfold Fsign, finite. rewrite Hf.
  destruct (PrimFloat.is_nan x) eqn:Hn.
  - apply is_nan_Prim2SF in Hn. split; [|split; [discriminate|]].
    + apply is_nan_Prim2SF. rewrite Hf, Hn. reflexivity.
    + rewrite Hn. discriminate.
  - apply is_nan_false_Prim2SF in Hn.
    destruct (SFmul_const_sign (Prim2SF x) c1 e1 Hn) as [Hs1 Hn1].
    destruct (SFdiv_const_sign _ c2 e2 Hn1) as [Hs2 Hn2].
    split; [|split].
    + apply is_nan_false_Prim2SF. now rewrite Hf.
    + intros _. congruence.
    + destruct (Prim2SF x) as [s|s| |s m e]; try reflexivity.
      * cbn [SFmul SFdiv SFfinite]. discriminate.
      * contradiction.
Qed.

(** ** Accuracy of the conversion back to degrees *)

Lemma rad2deg_accuracy (x : float) :
  finite x = true ->
  (Rabs (F2R x) <= 1000000000)%R ->
  finite (rad2deg x) = true /\
  (Rabs (F2R (rad2deg x) - F2R x * 180 / F2R M_PI)
   <= 19 * bpow (-52) * Rabs (F2R x * 180 / F2R M_PI) + 12 * eta)%R.
Proof.
  unfold finite, F2R. intros Hfin Hx. rewrite Rabs_SF2R in Hx.
  rewrite Prim2SF_rad2deg, Prim2SF_M_PI.
  set (sx := Prim2SF x) in *.
  pose proof (SFmag_nonneg sx) as Hx0.
  pose proof eta_pos as He. pose proof eta_le as He'.
  destruct (SFmul_const sx 6333186975989760 (-45) Hfin ltac:(lia))
    as (Hf1 & Hs1 & Hb1).
  { fold SF_180. rewrite SFmag_180. lra. }
  fold SF_180 in *. set (a := SFmul prec emax sx SF_180) in *.
  pose proof (SFmag_nonneg a) as Ha0.
  rewrite SFmag_180, bpow_m52 in Hb1.
  destruct (SFdiv_const a 7074237752028440 (-51) Hf1) as (Hf2 & Hs2 & Hb2).
  { fold SF_PI. rewrite SFmag_PI. lra. }
  fold SF_PI in *. set (b := SFdiv prec emax a SF_PI) in *.
  rewrite SFmag_PI, bpow_m52 in Hb2.
  split; [exact Hf2|].
  assert (HPI : SF2R SF_PI = SFmag SF_PI) by (now rewrite SF2R_sign_mag).
  rewrite HPI, SFmag_PI, bpow_m52.
  rewrite (SF2R_sign_mag b), (SF2R_sign_mag sx), Hs2, Hs1.
  destruct (SFsign sx).
  - replace (- SFmag b - - SFmag sx * 180 / (7074237752028440 / 2251799813685248))%R
      with (- (SFmag b - SFmag sx * 180 / (7074237752028440 / 2251799813685248)))%R
      by (field; lra).
    replace (- SFmag sx * 180 / (7074237752028440 / 2251799813685248))%R
      with (- (SFmag sx * 180 / (7074237752028440 / 2251799813685248)))%R
      by (field; lra).
    rewrite !Rabs_Ropp.
    rewrite (Rabs_pos_eq (SFmag sx * 180 / _)) by lra.
    apply Rabs_le. lra.
  - rewrite (Rabs_pos_eq (SFmag sx * 180 / _)) by lra.
    apply Rabs_le. lra.
Qed.

(** ** Overflow of the product with [M_PI] *)

Lemma valid_finite_bounds s m e :
  valid_binary (S754_finite s m e) = true ->
  (IZR (Z.pos m) + 1 <= bpow 53)%R /\ e <= 971.
Proof.
  unfold SpecFloat.valid_binary, bounded, canonical_mantissa.
  intros H. apply andb_prop in H as [Hc He].
  apply Z.eqb_eq in Hc. apply Z.leb_le in He. rewrite fexp_eq in Hc.
  split; [|unfold emax, prec in He; lia].
  destruct (digits2_pos_bounds m) as [_ Hu].
  apply Rle_trans with (1 := Hu). apply bpow_le. lia.
Qed.

Lemma mul_PI_overflow (x : float) :
  finite x = true ->
  (bpow 1023 <= Rabs (F2R x))%R ->
  Prim2SF (x * M_PI) = S754_infinity (Fsign x).
Proof.
  unfold finite, F2R, Fsign. intros Hfin Hbig. rewrite Rabs_SF2R in Hbig.
  pose proof (Prim2SF_valid (x * M_PI)) as Hvalid.
  rewrite mul_spec, Prim2SF_M_PI in *. unfold SF64mul in *.
  pose proof (bpow_ge_1 971 ltac:(lia)) as HB.
  assert (H1023 : bpow 1023 = (4503599627370496 * bpow 971)%R).
  { change 1023 with (52 + 971). rewrite bpow_add.
    now rewrite bpow_Zpos. }
  rewrite H1023 in Hbig.
  destruct (Prim2SF x) as [s|s| |s m e]; try discriminate.
  { cbn [SFmag] in Hbig. lra. }
  cbn [SFsign]. unfold SF_PI in *. cbn [SFmul] in *.
  rewrite xorb_false_r in *.
  set (mc := 7074237752028440%positive) in *.
  destruct (binary_round_aux_spec s (Z.pos (m * mc)) (e + -51) loc_Exact
              (IZR (Z.pos (m * mc))) ltac:(lia) eq_refl)
    as (mf & ef & Hmf & Hr & Herr & Hef).
  rewrite Hr in *. clear Hr.
  assert (HV : (IZR (Z.pos (m * mc)) * bpow (e + -51) =
                IZR (Z.pos m) * bpow e * (7074237752028440 / 2251799813685248))%R).
  { rewrite Pos2Z.inj_mul, mult_IZR, bpow_add, bpow_Zneg. unfold mc.
    change (IZR (Z.pow_pos 2 51)) with 2251799813685248%R. field. }
  assert (Hfine : (bpow (e + -51) <=
                   bpow (-52) * (IZR (Z.pos (m * mc)) * bpow (e + -51)))%R).
  { rewrite Pos2Z.inj_mul, mult_IZR, bpow_m52.
    pose proof (bpow_pos (e + -51)).
    assert (1 <= IZR (Z.pos m))%R by (apply IZR_le; lia).
    assert (4503599627370496 <= IZR (Z.pos mc))%R by (apply IZR_le; unfold mc; lia).
    assert (4503599627370496 <= IZR (Z.pos m) * IZR (Z.pos mc))%R by nra.
    nra. }
  cbn [SFmag] in Hbig.
  set (V := (IZR (Z.pos (m * mc)) * bpow (e + -51))%R) in *.
  set (X := (IZR (Z.pos m) * bpow e)%R) in *.
  fold eta in Hef. pose proof eta_pos as He. pose proof eta_le as He'.
  rewrite bpow_m52 in *. pose proof (bpow_pos ef) as Hpf.
  unfold round_result in *. destruct mf as [|m'|m']; [| |lia].
  - exfalso. change (IZR 0) with 0%R in Herr. lra.
  - destruct (ef <=? emax - prec) eqn:Hle; [|reflexivity].
    exfalso. apply valid_finite_bounds in Hvalid as [Hm' Hef'].
    rewrite bpow_Zpos in Hm'.
    change (IZR (Z.pow_pos 2 53)) with 9007199254740992%R in Hm'.
    apply bpow_le in Hef'.
    assert (0 < IZR (Z.pos m'))%R by (apply IZR_lt; lia).
    assert (IZR (Z.pos m') * bpow ef <= 9007199254740991 * bpow 971)%R by nra.
    lra.
Qed.

Lemma deg2rad_overflow_spec (x : float) :
  finite x = true ->
  (bpow 1023 <= Rabs (F2R x))%R ->
  Prim2SF (deg2rad x) = S754_infinity (Fsign x) /\
  (Rabs (F2R x * F2R M_PI / 180) < bpow 1019)%R.
Proof.
  intros Hfin Hbig. split.
  - unfold deg2rad. rewrite div_spec, (mul_PI_overflow x Hfin Hbig).
    rewrite Prim2SF_180. cbn [SF64div SFdiv SF_180]. unfold SF64div.
    cbn [SFdiv SF_180]. now rewrite xorb_false_r.
  - unfold F2R in *. rewrite Prim2SF_M_PI.
    assert (HPI : SF2R SF_PI = SFmag SF_PI) by (now rewrite SF2R_sign_mag).
    rewrite HPI, SFmag_PI.
    pose proof (Prim2SF_valid x) as Hv. unfold finite in Hfin.
    assert (Hx : (Rabs (SF2R (Prim2SF x)) < bpow 1024)%R).
    { rewrite Rabs_SF2R.
      destruct (Prim2SF x) as [s|s| |s m e]; try discriminate.
      - cbn [SFmag]. apply bpow_pos.
      - apply valid_finite_bounds in Hv as [Hm He]. cbn [SFmag].
        change 1024 with (53 + 971). rewrite bpow_add.
        apply bpow_le in He. pose proof (bpow_pos e).
        pose proof (bpow_pos 971).
        assert (0 < IZR (Z.pos m))%R by (apply IZR_lt; lia).
        assert (IZR (Z.pos m) < bpow 53)%R by lra.
        apply Rle_lt_trans with (IZR (Z.pos m) * bpow 971)%R; nra. }
    assert (H1024 : bpow 1024 = (32 * bpow 1019)%R).
    { change 1024 with (5 + 1019). rewrite bpow_add. now rewrite bpow_Zpos. }
    rewrite H1024 in Hx.
    set (r := SF2R (Prim2SF x)) in *.
    replace (r * (7074237752028440 / 2251799813685248) / 180)%R
      with (r * (7074237752028440 / 2251799813685248 / 180))%R by field.
    rewrite Rabs_mult, (Rabs_pos_eq (7074237752028440 / 2251799813685248 / 180)) by lra.
    pose proof (Rabs_pos r). lra.
Qed.

End Conversions.

Import Conversions.

(** X1: the function touches caller memory that is not mapped exactly when
    both pointers are non-NULL, the context and the transformation were
    acquired, and either the input struct is not mapped, or the engine
    reported no error and the output struct is not mapped.  An unmapped
    output struct is never touched on a path that fails. *)
Theorem undefined_behaviour_iff {E} (input output : Z) (w : World E) :
  epsg4979_from_epsg9705 input output w = None <->
  input <> 0 /\ output <> 0 /\
  fst (ctx_result w) <> 0 /\ fst (pj_result w) <> 0 /\
  (read_EPSG9705 (heap w) input = None \/
   exists i, read_EPSG9705 (heap w) input = Some i /\
             errno_result w i = 0 /\ ~ valid_ptr (heap w) output).
Proof.
  split.
  - intros Hnone.
    assert (Hno : forall r w', ~ path input output w r w').
    { intros r w' Hp. apply path_run in Hp. congruence. }
    destruct (Z.eq_dec input 0) as [Hi|Hi].
    { exfalso. eapply Hno. apply path_null. now left. }
    destruct (Z.eq_dec output 0) as [Ho|Ho].
    { exfalso. eapply Hno. apply path_null. now right. }
    destruct (proj_context_create E (eng w)) as [ctx s1] eqn:Hc.
    destruct (Z.eq_dec ctx 0) as [->|Hctx].
    { exfalso. eapply Hno. eapply path_no_context; eauto. }
    destruct (proj_create_crs_to_crs E ctx "EPSG:9705" "EPSG:4979" 0 s1)
      as [P s2] eqn:HP.
    destruct (Z.eq_dec P 0) as [->|HP0].
    { exfalso. eapply Hno. eapply path_no_transformation; eauto. }
    destruct (pj_result_eq w ctx s1 _ Hc HP) as [Ec Ep].
    rewrite Ec, Ep. cbn [fst].
    do 4 (split; [assumption|]).
    destruct (read_EPSG9705 (heap w) input) as [i|] eqn:Hr; [|now left].
    right. exists i. split; [reflexivity|].
    destruct (proj_trans E P PJ_FWD (c_in_of i) s2) as [c_out s3] eqn:Ht.
    destruct (trans_result_eq w ctx s1 P s2 i c_out s3 Hc HP Ht) as [_ Ee].
    rewrite Ee.
    destruct (Z.eq_dec (proj_errno E P s3) 0) as [He|He].
    + split; [exact He|]. intros Hv. eapply Hno. eapply path_success; eauto.
    + exfalso. eapply Hno. eapply path_apply_error; eauto.
  - intros (Hi & Ho & Hctx & HP0 & Hcase).
    destruct (epsg4979_from_epsg9705 input output w) as [[r w']|] eqn:Hrun;
      [|reflexivity].
    exfalso. apply run_path in Hrun.
    destruct Hrun as
      [ Hnull
      | s1 _ _ Hc
      | ctx s1 s2 _ _ Hc Hctx' HP
      | ctx s1 P s2 i c_out s3 _ _ Hc Hctx' HP HP0' Hr Ht He
      | ctx s1 P s2 i c_out s3 _ _ Hc Hctx' HP HP0' Hr Ht He Hv ].
    + tauto.
    + unfold ctx_result in Hctx. rewrite Hc in Hctx. now apply Hctx.
    + destruct (pj_result_eq w ctx s1 _ Hc HP) as [_ Ep].
      rewrite Ep in HP0. now apply HP0.
    + destruct (trans_result_eq w ctx s1 P s2 i c_out s3 Hc HP Ht) as [_ Ee].
      destruct Hcase as [Hn|(j & Hj & Hej & _)]; [congruence|].
      rewrite Hr in Hj. injection Hj as <-. congruence.
    + destruct Hcase as [Hn|(j & Hj & _ & Hnv)]; [congruence|]. tauto.
Qed.

(** A dangling output pointer makes the successful path fault. *)
Example dangling_output_faults :
  epsg4979_from_epsg9705 64 128 w_no_output = None.
Proof. vm_compute. reflexivity. Qed.



(** X3: the calls into the engine, in order.  None on -1; the failed
    context creation alone on -2; creation, failed resolution and context
    release on -3; on -4 and 0 creation, resolution of EPSG:9705 to
    EPSG:4979 with no area on that context, one transformation in the
    forward direction on the handle just resolved, one query of the error
    indicator on the same handle (0 exactly when the status is 0), and the
    two releases. *)
Theorem engine_call_sequence {E} (input output : Z) (w : World E) (r : Z)
    (w' : World E) :
  epsg4979_from_epsg9705 input output w = Some (r, w') ->
  (r = -1 -> engine_calls (new_events w w') = []) /\
  (r = -2 -> engine_calls (new_events w w') = [Call_context_create 0]) /\
  (r = -3 ->
     exists ctx, ctx <> 0 /\
       engine_calls (new_events w w') =
         [Call_context_create ctx;
          Call_create_crs_to_crs ctx "EPSG:9705" "EPSG:4979" 0 0;
          Call_context_destroy ctx]) /\
  (r = -4 \/ r = 0 ->
     exists ctx P c c' e, ctx <> 0 /\ P <> 0 /\ (e = 0 <-> r = 0) /\
       engine_calls (new_events w w') =
         [Call_context_create ctx;
          Call_create_crs_to_crs ctx "EPSG:9705" "EPSG:4979" 0 P;
          Call_trans P PJ_FWD c c';
          Call_errno P e;
          Call_destroy P;
          Call_context_destroy ctx]).
Proof.
  intros Hrun. apply run_path in Hrun.
  destruct Hrun as
    [ Hnull
    | s1 _ _ Hc
    | ctx s1 s2 _ _ Hc Hctx HP
    | ctx s1 P s2 i c_out s3 _ _ Hc Hctx HP HP0 Hr Ht He
    | ctx s1 P s2 i c_out s3 _ _ Hc Hctx HP HP0 Hr Ht He Hv ];
    new_evs; rewrite ?new_events_refl; cbn.
  - repeat split; try discriminate; auto. intros [|]; discriminate.
  - repeat split; try discriminate; auto. intros [|]; discriminate.
  - split; [discriminate|]. split; [discriminate|]. split.
    + intros _. now exists ctx.
    + intros [|]; discriminate.
  - split; [discriminate|]. split; [discriminate|]. split; [discriminate|].
    intros _. exists ctx, P, (c_in_of i), c_out, (proj_errno E P s3).
    repeat split; try assumption; try reflexivity.
    + intros He'. contradiction.
    + discriminate.
  - split; [discriminate|]. split; [discriminate|]. split; [discriminate|].
    intros _. exists ctx, P, (c_in_of i), c_out, 0.
    repeat split; try assumption; reflexivity.
Qed.

(** The successful call at the example point: six calls into the engine. *)
Lemma engine_call_sequence_witness :
  exists r w',
    epsg4979_from_epsg9705 64 128 w_liberty = Some (r, w') /\
    length (engine_calls (new_events w_liberty w')) = 6%nat.
Proof.
  destruct (epsg4979_from_epsg9705 64 128 w_liberty) as [[r w']|] eqn:H;
    [|vm_compute in H; discriminate].
  assert (Hr : r = 0).
  { pose proof H as H'. vm_compute in H'. now injection H' as <- _. }
  exists r, w'. split; [reflexivity|].
  destruct (engine_call_sequence 64 128 w_liberty r w' H) as (_ & _ & _ & H0).
  destruct (H0 (or_intror Hr)) as (ctx & P & c & c' & e & _ & _ & _ & ->).
  reflexivity.
Defined.

(** X4: any number of calls made one after the other returns one status
    per call, each between -4 and 0, leaves no engine resource live at the
    end, and creates one context per call with two non-NULL pointers:
    nothing is kept from one call to the next. *)
Theorem calls_in_sequence {E} (calls : list (Z * Z)) :
  forall (w : World E) (rs : list Z) (w' : World E),
  run_calls calls w = Some (rs, w') ->
  length rs = length calls /\
  Forall (fun r => -4 <= r <= 0) rs /\
  res_run no_resources (new_events w w') = Some no_resources /\
  length (List.filter is_context_create (new_events w w')) =
    length (non_null_calls calls).
Proof.
  induction calls as [|[input output] rest IH]; intros w rs w' Hrun.
  - injection Hrun as <- <-. rewrite new_events_refl. repeat split. constructor.
  - cbn [run_calls] in Hrun. unfold bind at 1 in Hrun.
    destruct (epsg4979_from_epsg9705 input output w) as [[r w1]|] eqn:H1;
      [|discriminate].
    unfold bind at 1 in Hrun.
    destruct (run_calls rest w1) as [[rs' w2]|] eqn:H2; [|discriminate].
    injection Hrun as <- <-.
    destruct (call_summary _ _ _ _ _ H1) as (evs1 & Ht1 & Hb1 & Hc1 & Hr1).
    destruct (IH w1 rs' w2 H2) as (Hl & Hall & Hb2 & Hc2).
    set (evs2 := new_events w1 w2) in *.
    assert (Ht2 : trace w2 = trace w1 ++ evs2).
    { destruct (run_calls_trace _ _ _ _ H2) as (evs & Hevs).
      unfold evs2. now rewrite (new_events_app _ _ _ Hevs). }
    rewrite (new_events_app w w2 (evs1 ++ evs2))
      by (now rewrite Ht2, Ht1, app_assoc).
    split; [cbn; now rewrite Hl|]. split; [now constructor|]. split.
    + now rewrite res_run_app, Hb1.
    + rewrite List.filter_app, length_app, Hc1, Hc2.
      unfold non_null_calls. cbn [List.filter fst snd].
      destruct (negb ((input =? 0) || (output =? 0))); reflexivity.
Qed.

(** Three calls, the second with a NULL input: two contexts are created. *)
Lemma calls_in_sequence_witness :
  exists rs w',
    run_calls [(64, 128); (0, 128); (64, 128)] w_liberty = Some (rs, w') /\
    res_run no_resources (new_events w_liberty w') = Some no_resources /\
    length (List.filter is_context_create (new_events w_liberty w')) = 2%nat.
Proof.
  destruct (run_calls [(64, 128); (0, 128); (64, 128)] w_liberty)
    as [[rs w']|] eqn:H; [|vm_compute in H; discriminate].
  exists rs, w'. split; [reflexivity|].
  destruct (calls_in_sequence _ _ _ _ H) as (_ & _ & Hb & Hc).
  split; [exact Hb|exact Hc].
Defined.

(** X5: on success, when the engine returns finite angular components of
    magnitude at most 1e9 radians, the output latitude and longitude are
    finite and differ from the real [angle * 180 / M_PI] by at most
    [19 * 2^-52] of it plus [12 * 2^-1074]. *)
Theorem output_conversion_accuracy {E} (input output : Z) (w : World E)
    (i : EPSG9705) (w' : World E) :
  read_EPSG9705 (heap w) input = Some i ->
  epsg4979_from_epsg9705 input output w = Some (0, w') ->
  finite (phi (lpzt (fst (trans_result w i)))) = true ->
  (Rabs (F2R (phi (lpzt (fst (trans_result w i))))) <= 1000000000)%R ->
  finite (lam (lpzt (fst (trans_result w i)))) = true ->
  (Rabs (F2R (lam (lpzt (fst (trans_result w i))))) <= 1000000000)%R ->
  exists o : EPSG4979,
    read_EPSG4979 (heap w') output = Some o /\
    finite (lat4979 o) = true /\ finite (lon4979 o) = true /\
    (Rabs (F2R (lat4979 o) -
           F2R (phi (lpzt (fst (trans_result w i)))) * 180 / F2R M_PI)
     <= 19 * bpow (-52) *
        Rabs (F2R (phi (lpzt (fst (trans_result w i)))) * 180 / F2R M_PI)
        + 12 * eta)%R /\
    (Rabs (F2R (lon4979 o) -
           F2R (lam (lpzt (fst (trans_result w i)))) * 180 / F2R M_PI)
     <= 19 * bpow (-52) *
        Rabs (F2R (lam (lpzt (fst (trans_result w i)))) * 180 / F2R M_PI)
        + 12 * eta)%R.
Proof.
  intros Hread Hrun Hfp Hp Hfl Hl. apply run_path in Hrun.
  inversion Hrun as
    [ | | |
    | ctx s1 P s2 j c_out s3 _ _ Hc Hctx HP HP0 Hr Ht He Hv Hw ].
  rewrite Hread in Hr. injection Hr as <-.
  destruct (trans_result_eq w ctx s1 P s2 i c_out s3 Hc HP Ht) as [Et _].
  rewrite Et in *. cbn [fst] in *.
  exists (output_of c_out). split; [apply read_write_EPSG4979|].
  unfold output_of. cbn [lat4979 lon4979].
  destruct (rad2deg_accuracy _ Hfp Hp) as [F1 B1].
  destruct (rad2deg_accuracy _ Hfl Hl) as [F2 B2].
  auto.
Qed.

(** The example point on the sample engine. *)
Lemma output_conversion_accuracy_witness :
  exists w' o,
    epsg4979_from_epsg9705 64 128 w_liberty = Some (0, w') /\
    read_EPSG4979 (heap w') 128 = Some o /\
    finite (lat4979 o) = true /\ finite (lon4979 o) = true.
Proof.
  destruct (epsg4979_from_epsg9705 64 128 w_liberty) as [[r w']|] eqn:H;
    [|vm_compute in H; discriminate].
  assert (Hr : r = 0).
  { pose proof H as H'. vm_compute in H'. now injection H' as <- _. }
  subst r.
  destruct (output_conversion_accuracy 64 128 w_liberty liberty w')
    as (o & Ho & Hf1 & Hf2 & _);
    [ reflexivity | exact H | reflexivity | | reflexivity | | ].
  - F2R_eval. apply Rabs_le. lra.
  - F2R_eval. apply Rabs_le. lra.
  - exists w', o. auto.
Defined.

(** X6: both conversions are odd.  Negating the input latitude and
    longitude negates the two angular slots handed to the engine bit for
    bit, and negating the engine's angular slots negates the output
    latitude and longitude bit for bit; the height is not affected. *)
Theorem mirror_symmetry (i : EPSG9705) (c : PJ_COORD) :
  c_in_of (mkEPSG9705 (- lat9705 i) (- lon9705 i) (alt9705 i)) =
    proj_coord (- lam (lpzt (c_in_of i))) (- phi (lpzt (c_in_of i)))
               (alt9705 i) 0%float /\
  output_of (proj_coord (- lam (lpzt c)) (- phi (lpzt c)) (z (lpzt c))
                        (t (lpzt c))) =
    mkEPSG4979 (- lat4979 (output_of c)) (- lon4979 (output_of c))
               (alt4979 (output_of c)).
Proof.
  unfold c_in_of, output_of, proj_coord.
  cbn [lpzt lam phi z lat9705 lon9705 alt9705 lat4979 lon4979 alt4979].
  now rewrite !deg2rad_opp, !rad2deg_opp.
Qed.

(** X7: values that are not finite are not filtered in either direction.
    A NaN or infinite input latitude or longitude reaches the engine as a
    NaN or infinite angle, and the height as it is; when the engine
    reports no error, the status is 0 and any NaN or infinite component
    of its result is written as a NaN or infinite output field. *)
Theorem nonfinite_values_pass {E} (input output : Z) (w : World E)
    (i : EPSG9705) (r : Z) (w' : World E) :
  input <> 0 -> output <> 0 ->
  read_EPSG9705 (heap w) input = Some i ->
  epsg4979_from_epsg9705 input output w = Some (r, w') ->
  (forall c, In c (trans_inputs (new_events w w')) ->
     (finite (lat9705 i) = false -> finite (phi (lpzt c)) = false) /\
     (finite (lon9705 i) = false -> finite (lam (lpzt c)) = false) /\
     z (lpzt c) = alt9705 i) /\
  (fst (ctx_result w) <> 0 -> fst (pj_result w) <> 0 ->
   errno_result w i = 0 ->
     r = 0 /\
     exists o, read_EPSG4979 (heap w') output = Some o /\
       (finite (phi (lpzt (fst (trans_result w i)))) = false ->
          finite (lat4979 o) = false) /\
       (finite (lam (lpzt (fst (trans_result w i)))) = false ->
          finite (lon4979 o) = false) /\
       alt4979 o = z (lpzt (fst (trans_result w i)))).
Proof.
  intros Hi Ho Hread Hrun.
  assert (Hd : forall x, finite x = false -> finite (deg2rad x) = false).
  { intros x Hx. destruct (finite (deg2rad x)) eqn:Hf; [|reflexivity].
    apply (conv_nan_iff deg2rad _ _ _ _ Prim2SF_deg2rad) in Hf. congruence. }
  assert (Hg : forall x, finite x = false -> finite (rad2deg x) = false).
  { intros x Hx. destruct (finite (rad2deg x)) eqn:Hf; [|reflexivity].
    apply (conv_nan_iff rad2deg _ _ _ _ Prim2SF_rad2deg) in Hf. congruence. }
  apply run_path in Hrun.
  destruct Hrun as
    [ Hnull
    | s1 _ _ Hc
    | ctx s1 s2 _ _ Hc Hctx HP
    | ctx s1 P s2 j c_out s3 _ _ Hc Hctx HP HP0 Hr Ht He
    | ctx s1 P s2 j c_out s3 _ _ Hc Hctx HP HP0 Hr Ht He Hv ];
    new_evs; rewrite ?new_events_refl;
    try (rewrite Hread in Hr; injection Hr as <-); answers; cbn [trans_inputs].
  - tauto.
  - split; [intros c []|]. intros Hn. exfalso. now apply Hn.
  - split; [intros c []|]. intros _ Hn. exfalso. now apply Hn.
  - split; [|intros _ _ He'; contradiction]. intros c [<-|[]].
      split; [exact (Hd _)|split; [exact (Hd _)|reflexivity]].
  - split.
    + intros c [<-|[]].
      split; [exact (Hd _)|split; [exact (Hd _)|reflexivity]].
    + intros _ _ _. split; [reflexivity|].
      exists (output_of c_out). split; [apply read_write_EPSG4979|].
      split; [exact (Hg _)|split; [exact (Hg _)|reflexivity]].
Qed.

(** An engine that returns infinities and NaN with its error indicator at 0. *)
Lemma nonfinite_values_pass_witness :
  exists w' o,
    epsg4979_from_epsg9705 64 128 w_silent = Some (0, w') /\
    read_EPSG4979 (heap w') 128 = Some o /\
    finite (lat4979 o) = false /\ finite (lon4979 o) = false /\
    finite (alt4979 o) = false.
Proof.
  destruct (epsg4979_from_epsg9705 64 128 w_silent) as [[r w']|] eqn:H;
    [|vm_compute in H; discriminate].
  destruct (nonfinite_values_pass 64 128 w_silent liberty r w')
    as (_ & Hout); [discriminate | discriminate | reflexivity | exact H |].
  destruct Hout as (-> & o & Ho & Hlat & Hlon & Halt);
    [discriminate | discriminate | reflexivity |].
  exists w', o. split; [reflexivity|]. split; [exact Ho|].
  split; [apply Hlat; reflexivity|]. split; [apply Hlon; reflexivity|].
  rewrite Halt. reflexivity.
Defined.

(** X8: a finite longitude of magnitude [2^1023] or more overflows in
    [lon * M_PI]: the engine is handed an infinite longitude of the same
    sign, although the real value [lon * M_PI / 180] is below [2^1019]
    and so within the range of a double.  (The latitude goes through the
    same expression.) *)
Theorem radians_overflow (i : EPSG9705) :
  finite (lon9705 i) = true ->
  (bpow 1023 <= Rabs (F2R (lon9705 i)))%R ->
  Prim2SF (lam (lpzt (c_in_of i))) = S754_infinity (Fsign (lon9705 i)) /\
  (Rabs (F2R (lon9705 i) * F2R M_PI / 180) < bpow 1019)%R.
Proof.
  intros Hf Hbig. unfold c_in_of, proj_coord. cbn [lpzt lam].
  now apply deg2rad_overflow_spec.
Qed.

(** A longitude of about 1e308 degrees. *)
Lemma radians_overflow_witness :
  Prim2SF (lam (lpzt (c_in_of beyond_range))) =
  S754_infinity false.
Proof.
  apply (radians_overflow beyond_range).
  - reflexivity.
  - cbn [lon9705]. F2R_eval. rewrite bpow_Zpos.
    match goal with
    | |- context [Z.pow_pos 2 ?p] =>
        let k := eval vm_compute in (Z.pow_pos 2 p) in
        change (Z.pow_pos 2 p) with k
    end.
    rewrite Rabs_pos_eq; lra.
Defined.

(** X9: for every double, each conversion returns NaN exactly when its
    argument is NaN, and otherwise a value with the sign of its argument,
    zeros, underflow to zero and overflow to infinity included. *)
Theorem conversions_keep_sign_and_nan (x : float) :
  PrimFloat.is_nan (deg2rad x) = PrimFloat.is_nan x /\
  PrimFloat.is_nan (rad2deg x) = PrimFloat.is_nan x /\
  (PrimFloat.is_nan x = false ->
     Fsign (deg2rad x) = Fsign x /\ Fsign (rad2deg x) = Fsign x).
Proof.
  destruct (conv_nan_iff deg2rad _ _ _ _ Prim2SF_deg2rad x) as (N1 & S1 & _).
  destruct (conv_nan_iff rad2deg _ _ _ _ Prim2SF_rad2deg x) as (N2 & S2 & _).
  auto.
Qed.

(** A finite angle of at most [bound] degrees in magnitude converts to a
    finite angle of at most [bound * M_PI / 180 + 2e-14] radians. *)
Lemma deg2rad_range (x : float) (bound : R) :
  finite x = true ->
  (Rabs (F2R x) <= bound)%R -> (bound <= 180)%R ->
  finite (deg2rad x) = true /\
  (Rabs (F2R (deg2rad x)) <= bound * F2R M_PI / 180 + 2 / 100000000000000)%R.
Proof.
  intros Hf Hx Hb.
  destruct (deg2rad_accuracy x Hf ltac:(lra)) as [Hfin Hacc].
  split; [exact Hfin|].
  assert (HPI : F2R M_PI = (7074237752028440 / 2251799813685248)%R).
  { unfold F2R. rewrite Prim2SF_M_PI, SF2R_sign_mag. apply SFmag_PI. }
  rewrite HPI in *. rewrite bpow_m52 in Hacc.
  pose proof eta_pos as He. pose proof eta_le as He'.
  set (y := F2R (deg2rad x)) in *. set (v := F2R x) in *.
  replace (v * (7074237752028440 / 2251799813685248) / 180)%R
    with (v * (7074237752028440 / 2251799813685248 / 180))%R in Hacc by field.
  rewrite Rabs_mult in Hacc.
  rewrite (Rabs_pos_eq (7074237752028440 / 2251799813685248 / 180)) in Hacc
    by lra.
  pose proof (Rabs_pos v) as Hv0.
  assert (Hy : (Rabs y <=
            Rabs (y - v * (7074237752028440 / 2251799813685248 / 180)) +
            Rabs v * (7074237752028440 / 2251799813685248 / 180))%R).
  { replace y with ((y - v * (7074237752028440 / 2251799813685248 / 180)) +
                    v * (7074237752028440 / 2251799813685248 / 180))%R at 1
      by ring.
    eapply Rle_trans; [apply Rabs_triang|].
    rewrite (Rabs_mult v), (Rabs_pos_eq (7074237752028440 / 2251799813685248 / 180))
      by lra. lra. }
  lra.
Qed.

(** X10: for an input with a finite latitude in [-90, 90] and a finite
    longitude in [-180, 180], every coordinate handed to the engine has a
    finite latitude of magnitude at most [M_PI / 2 + 2e-14] radians and a
    finite longitude of magnitude at most [M_PI + 2e-14] radians. *)
Theorem radians_in_range {E} (input output : Z) (w : World E)
    (i : EPSG9705) (r : Z) (w' : World E) :
  read_EPSG9705 (heap w) input = Some i ->
  finite (lat9705 i) = true -> (Rabs (F2R (lat9705 i)) <= 90)%R ->
  finite (lon9705 i) = true -> (Rabs (F2R (lon9705 i)) <= 180)%R ->
  epsg4979_from_epsg9705 input output w = Some (r, w') ->
  forall c, In c (trans_inputs (new_events w w')) ->
    finite (phi (lpzt c)) = true /\ finite (lam (lpzt c)) = true /\
    (Rabs (F2R (phi (lpzt c))) <= F2R M_PI / 2 + 2 / 100000000000000)%R /\
    (Rabs (F2R (lam (lpzt c))) <= F2R M_PI + 2 / 100000000000000)%R.
Proof.
  intros Hread Hflat Hlat Hflon Hlon Hrun.
  destruct (deg2rad_range (lat9705 i) 90 Hflat Hlat ltac:(lra)) as [F1 B1].
  destruct (deg2rad_range (lon9705 i) 180 Hflon Hlon ltac:(lra)) as [F2 B2].
  assert (HPI : (0 <= F2R M_PI)%R).
  { unfold F2R. rewrite Prim2SF_M_PI, SF2R_sign_mag. apply SFmag_nonneg. }
  apply run_path in Hrun.
  destruct Hrun as
    [ | | 
    | ctx s1 P s2 j c_out s3 _ _ Hc Hctx HP HP0 Hr Ht He
    | ctx s1 P s2 j c_out s3 _ _ Hc Hctx HP HP0 Hr Ht He Hv ];
    new_evs; rewrite ?new_events_refl; cbn [trans_inputs];
    intros c Hin; try contradiction;
    rewrite Hread in Hr; injection Hr as <-;
    destruct Hin as [<-|[]]; unfold c_in_of, proj_coord; cbn [lpzt lam phi];
    (split; [exact F1|]); (split; [exact F2|]); split; lra.
Qed.

(** The example point. *)
Lemma radians_in_range_witness :
  exists r w' c,
    epsg4979_from_epsg9705 64 128 w_liberty = Some (r, w') /\
    In c (trans_inputs (new_events w_liberty w')) /\
    (Rabs (F2R (phi (lpzt c))) <= F2R M_PI / 2 + 2 / 100000000000000)%R.
Proof.
  destruct (epsg4979_from_epsg9705 64 128 w_liberty) as [[r w']|] eqn:H;
    [|vm_compute in H; discriminate].
  assert (Hin : In (c_in_of liberty) (trans_inputs (new_events w_liberty w'))).
  { pose proof H as H'. vm_compute in H'. injection H' as _ <-.
    left. reflexivity. }
  exists r, w', (c_in_of liberty). split; [reflexivity|]. split; [exact Hin|].
  destruct (radians_in_range 64 128 w_liberty liberty r w')
    with (c := c_in_of liberty) as (_ & _ & Hphi & _);
    [ reflexivity | reflexivity | | reflexivity | | exact H | exact Hin | exact Hphi ].
  - F2R_eval. apply Rabs_le. lra.
  - F2R_eval. apply Rabs_le. lra.
Defined.
